(** * Flashcards: a shallow embedding of [flashcards.py]

    The development follows the source file top-down:

    - [PyStr]: the Python [str] methods the program calls
      ([split], [join], [replace], [center], [expandtabs], slicing, [rfind]);
    - [TextWrap]: [textwrap.wrap] with the default [TextWrapper] options,
      as the program calls it;
    - [Flashcards]: the [Flashcard] class and [run_flashcards];
    - [Spec]: the notions of the specification the theorems are stated with;
    - the theorems, the ones about the specification in [Claims].

    Strings are lists of characters.  A character is a code point below
    256 (type [ascii]); the character classes ([str.isspace], the regular
    expression classes [\w] and [\d]) are the ones Python assigns to these code
    points.  Python integers are [Z]. *)

From Stdlib Require Import List ZArith Lia Bool Ascii String Arith Permutation.
Import ListNotations.

Local Open Scope Z_scope.

Definition str := list ascii.

(** String literals. *)
Definition lit (s : string) : str := list_ascii_of_string s.

Definition len (s : str) : Z := Z.of_nat (List.length s).

(* ===================================================================== *)
(** * Python [str] methods *)
(* ===================================================================== *)

Module PyStr.

Definition ord (c : ascii) : N := N_of_ascii c.

Definition in_range (lo hi : N) (c : ascii) : bool :=
  ((lo <=? ord c) && (ord c <=? hi))%N.

Definition SPACE : ascii := " "%char.
Definition TAB : ascii := ascii_of_N 9.
Definition NEWLINE : ascii := ascii_of_N 10.
Definition CR : ascii := ascii_of_N 13.
Definition HYPHEN : ascii := "-"%char.

(** [str.isspace] on one character: code points 9-13, 28-32, 133 and 160. *)
Definition isspace (c : ascii) : bool :=
  in_range 9 13 c || in_range 28 32 c || in_range 133 133 c
  || in_range 160 160 c.

(** [s.strip() == ''] *)
Definition strip_is_empty (s : str) : bool := forallb isspace s.

(** [s.split()]: the maximal runs of non-whitespace characters, in order. *)
Fixpoint split (s : str) : list str :=
  match s with
  | [] => []
  | c :: s' =>
      if isspace c then split s'
      else match s' with
           | [] => [[c]]
           | d :: _ =>
               if isspace d then [c] :: split s'
               else match split s' with
                    | w :: ws => (c :: w) :: ws
                    | [] => [[c]]
                    end
           end
  end.

(** [sep.join(parts)] *)
Fixpoint join (sep : str) (parts : list str) : str :=
  match parts with
  | [] => []
  | [p] => p
  | p :: ps => p ++ sep ++ join sep ps
  end.

(** [s.replace(old, new)] for one-character [old] and [new]. *)
Definition replace (old new : ascii) (s : str) : str :=
  map (fun c => if Ascii.eqb c old then new else c) s.

(** [s * n] *)
Definition mul (s : str) (n : Z) : str :=
  List.concat (repeat s (Z.to_nat n)).

(** [s.center(width, fillchar)]: unchanged when [width <= len s];
    otherwise [left = marg/2 + (marg & width & 1)] fill characters go to
    the left and the remaining ones to the right. *)
Definition center (s : str) (width : Z) (fillchar : ascii) : str :=
  if width <=? len s then s
  else
    let marg := width - len s in
    let left := marg / 2 + Z.land (Z.land marg width) 1 in
    repeat fillchar (Z.to_nat left) ++ s
      ++ repeat fillchar (Z.to_nat (marg - left)).

(** [s.expandtabs(tabsize)]: [col] is the column reached so far. *)
Fixpoint expandtabs_from (tabsize : Z) (col : Z) (s : str) : str :=
  match s with
  | [] => []
  | c :: s' =>
      if Ascii.eqb c TAB then
        if 0 <? tabsize then
          let incr := tabsize - (col mod tabsize) in
          repeat SPACE (Z.to_nat incr) ++ expandtabs_from tabsize (col + incr) s'
        else expandtabs_from tabsize col s'
      else if Ascii.eqb c NEWLINE || Ascii.eqb c CR then
        c :: expandtabs_from tabsize 0 s'
      else c :: expandtabs_from tabsize (col + 1) s'
  end.

Definition expandtabs (tabsize : Z) (s : str) : str :=
  expandtabs_from tabsize 0 s.

(** Slice bounds: a negative index counts from the end, and the result is
    clipped to [0 .. len]. *)
Definition clip (n : Z) (i : Z) : nat :=
  Z.to_nat (if i <? 0 then Z.max 0 (n + i) else Z.min i n).

(** [s[:stop]] and [s[start:]] *)
Definition slice_to (s : str) (stop : Z) : str := firstn (clip (len s) stop) s.
Definition slice_from (s : str) (start : Z) : str := skipn (clip (len s) start) s.

(** Index of the last occurrence of [c] in [s], if any. *)
Fixpoint last_index (c : ascii) (s : str) : option nat :=
  match s with
  | [] => None
  | d :: s' =>
      match last_index c s' with
      | Some i => Some (S i)
      | None => if Ascii.eqb d c then Some O else None
      end
  end.

(** [s.rfind(c, 0, stop)]: the highest index below [stop] holding [c],
    or [-1]. *)
Definition rfind (s : str) (c : ascii) (stop : Z) : Z :=
  match last_index c (slice_to s stop) with
  | Some i => Z.of_nat i
  | None => -1
  end.

End PyStr.

(* ===================================================================== *)
(** * [textwrap.wrap] with the default options *)
(* ===================================================================== *)

(** Exceptions.  [OutOfFuel] is not a Python exception: the loops of
    [textwrap] are modelled with a step budget, and [OutOfFuel] would report
    an exhausted budget.  [TextWrapFacts._split_total] and
    [LoopFacts.wrap_chunks_total] show that it is never raised. *)
Inductive exn := ValueError | AttributeError | OutOfFuel.

Inductive result (A : Type) :=
| Ok (a : A)
| Raise (e : exn).
Arguments Ok {A} a.
Arguments Raise {A} e.

(** Sequencing of calls that may raise. *)
Definition and_then {A B} (r : result A) (k : A -> result B) : result B :=
  match r with
  | Ok a => k a
  | Raise e => Raise e
  end.

Module TextWrap.
Import PyStr.

(** [_whitespace = '\t\n\x0b\x0c\r '] *)
Definition is_ws (c : ascii) : bool := in_range 9 13 c || in_range 32 32 c.

(** [\d] *)
Definition is_digit (c : ascii) : bool := in_range 48 57 c.

(** [\w] *)
Definition is_word (c : ascii) : bool :=
  in_range 48 57 c || in_range 65 90 c || in_range 95 95 c
  || in_range 97 122 c || in_range 170 170 c || in_range 178 179 c
  || in_range 181 181 c || in_range 185 186 c || in_range 188 190 c
  || in_range 192 214 c || in_range 216 246 c || in_range 248 255 c.

(** [letter = [^\d\W]] *)
Definition is_letter (c : ascii) : bool := is_word c && negb (is_digit c).

(** [word_punct]: a [\w] or one of the punctuation marks
    [!], double quote, ['], [&], [.], [,] and [?] (code points 33, 34, 39,
    38, 46, 44, 63). *)
Definition is_word_punct (c : ascii) : bool :=
  is_word c
  || existsb (Ascii.eqb c)
       [ascii_of_N 33; ascii_of_N 34; ascii_of_N 39; ascii_of_N 38;
        ascii_of_N 46; ascii_of_N 44; ascii_of_N 63].

Definition is_hyphen (c : ascii) : bool := Ascii.eqb c HYPHEN.

(** [_munge_whitespace]: [expand_tabs] and [replace_whitespace] are on,
    [tabsize] is 8. *)
Definition _munge_whitespace (text : str) : str :=
  map (fun c => if is_ws c then SPACE else c) (expandtabs 8 text).

(** ** [wordsep_re]

    A position in the text is given by the characters before it, nearest
    first ([before]), and the characters from it on ([after]).  Each
    function returns the length of the match of one alternative of the
    pattern at that position. *)

Fixpoint run_length (p : ascii -> bool) (s : str) : nat :=
  match s with
  | c :: s' => if p c then S (run_length p s') else O
  | [] => O
  end.

(** [ws+] *)
Definition alt_whitespace (after : str) : option nat :=
  match run_length is_ws after with
  | O => None
  | n => Some n
  end.

(** [-{2,}(?=\w)]: the run of hyphens has to end before a [\w]; a shorter
    run ends before a hyphen, which is not one. *)
Definition dashes_then_word (after : str) : option nat :=
  let n := run_length is_hyphen after in
  if (2 <=? n)%nat then
    match skipn n after with
    | c :: _ => if is_word c then Some n else None
    | [] => None
    end
  else None.

(** [(?<=wp) -{2,} (?=\w)] *)
Definition alt_em_dash (before after : str) : option nat :=
  match before with
  | b :: _ => if is_word_punct b then dashes_then_word after else None
  | [] => None
  end.

(** [-(?: (?<=lt{2}-) | (?<=lt-lt-)) (?= lt -? lt)], tried just before
    the hyphen. *)
Definition hyphen_break (before after : str) : bool :=
  match after with
  | h :: ahead =>
      is_hyphen h
      && (match before with
          | b1 :: b2 :: more =>
              (is_letter b1 && is_letter b2)
              || (is_letter b1 && is_hyphen b2
                  && match more with b3 :: _ => is_letter b3 | [] => false end)
          | _ => false
          end)
      && (match ahead with
          | a1 :: a2 :: more =>
              is_letter a1
              && ((is_hyphen a2
                   && match more with a3 :: _ => is_letter a3 | [] => false end)
                  || is_letter a2)
          | _ => false
          end)
  | [] => false
  end.

(** [(?=ws|\Z)] *)
Definition end_of_word (after : str) : bool :=
  match after with
  | c :: _ => is_ws c
  | [] => true
  end.

(** [(?<=wp) (?=-{2,}\w)] *)
Definition em_dash_ahead (before after : str) : bool :=
  match before with
  | b :: _ =>
      is_word_punct b
      && match dashes_then_word after with Some _ => true | None => false end
  | [] => false
  end.

(** [nws+? (?: ... )]: [n >= 1] characters are consumed already; the lazy
    quantifier tries the three endings before it takes one more
    character. *)
Fixpoint word_tail (before after : str) (n : nat) : option nat :=
  if hyphen_break before after then Some (S n)
  else if end_of_word after then Some n
  else if em_dash_ahead before after then Some n
  else match after with
       | c :: after' =>
           if is_ws c then None else word_tail (c :: before) after' (S n)
       | [] => None
       end.

Definition alt_word (before after : str) : option nat :=
  match after with
  | c :: after' => if is_ws c then None else word_tail (c :: before) after' 1
  | [] => None
  end.

(** The alternatives are tried in the order of the pattern. *)
Definition wordsep_match (before after : str) : option nat :=
  match alt_whitespace after with
  | Some n => Some n
  | None =>
      match alt_em_dash before after with
      | Some n => Some n
      | None => alt_word before after
      end
  end.

(** [wordsep_re.split(text)]: the text between two matches, then the
    match (the pattern is one capturing group), and the text after the last
    match.  [pending] holds, reversed, the text since the last match.
    Every match is at least one character long, so a budget of one step per
    character is enough. *)
Fixpoint re_split (fuel : nat) (before after pending : str) : option (list str) :=
  match after with
  | [] => Some [rev pending]
  | c :: after' =>
      match fuel with
      | O => None
      | S fuel' =>
          match wordsep_match before after with
          | Some n =>
              match re_split fuel' (rev (firstn n after) ++ before)
                      (skipn n after) [] with
              | Some pieces => Some (rev pending :: firstn n after :: pieces)
              | None => None
              end
          | None => re_split fuel' (c :: before) after' (c :: pending)
          end
      end
  end.

Definition nonempty (s : str) : bool :=
  match s with [] => false | _ :: _ => true end.

(** [_split]: [break_on_hyphens] is on; empty pieces are dropped. *)
Definition _split (text : str) : option (list str) :=
  match re_split (List.length text) [] text [] with
  | Some pieces => Some (filter nonempty pieces)
  | None => None
  end.

Definition _split_chunks (text : str) : option (list str) :=
  _split (_munge_whitespace text).

(** ** [_wrap_chunks]

    The source reverses [chunks] and pops from its end; here the list
    stays in reading order and its head is the next chunk. *)

(** The inner [while chunks] loop. *)
Fixpoint take_fitting (width : Z) (chunks cur_line : list str) (cur_len : Z)
  : list str * Z * list str :=
  match chunks with
  | [] => (cur_line, cur_len, [])
  | c :: rest =>
      if cur_len + len c <=? width
      then take_fitting width rest (cur_line ++ [c]) (cur_len + len c)
      else (cur_line, cur_len, chunks)
  end.

(** [any(c != '-' for c in s)] *)
Definition any_non_hyphen (s : str) : bool := existsb (fun c => negb (is_hyphen c)) s.

(** [_handle_long_word] with [break_long_words] and [break_on_hyphens]
    on; returns the new [cur_line] and the new chunk stack. *)
Definition _handle_long_word (chunks cur_line : list str) (cur_len width : Z)
  : list str * list str :=
  match chunks with
  | [] => (cur_line, chunks)
  | chunk :: rest =>
      let space_left := if width <? 1 then 1 else width - cur_len in
      let stop :=
        if len chunk >? space_left then
          let hyphen := rfind chunk HYPHEN space_left in
          if (hyphen >? 0) && any_non_hyphen (slice_to chunk hyphen)
          then hyphen + 1 else space_left
        else space_left in
      (cur_line ++ [slice_to chunk stop], slice_from chunk stop :: rest)
  end.

(** One pass of the outer [while chunks] loop on a non-empty stack:
    the line it appends, if any, and the stack it leaves. *)
Definition wrap_line (width : Z) (chunks lines : list str)
  : option str * list str :=
  let chunks :=
    match chunks with
    | c :: rest => if strip_is_empty c && negb (Nat.eqb (List.length lines) 0) then rest else chunks
    | [] => chunks
    end in
  let '(cur_line, cur_len, chunks) := take_fitting width chunks [] 0 in
  let '(cur_line, chunks) :=
    match chunks with
    | c :: _ =>
        if len c >? width then _handle_long_word chunks cur_line cur_len width
        else (cur_line, chunks)
    | [] => (cur_line, chunks)
    end in
  let cur_line :=
    match rev cur_line with
    | c :: _ => if strip_is_empty c then removelast cur_line else cur_line
    | [] => cur_line
    end in
  match cur_line with
  | [] => (None, chunks)
  | _ :: _ => (Some (List.concat cur_line), chunks)
  end.

(** The sum of the chunk lengths plus the number of chunks bounds the
    number of passes of the outer loop. *)
Definition weight (chunks : list str) : nat :=
  fold_right (fun c n => S (List.length c + n)) O chunks.

(** The outer [while chunks] loop. *)
Fixpoint wrap_loop (fuel : nat) (width : Z) (chunks lines : list str)
  : option (list str) :=
  match chunks with
  | [] => Some lines
  | _ :: _ =>
      match fuel with
      | O => None
      | S fuel' =>
          let '(line, chunks') := wrap_line width chunks lines in
          wrap_loop fuel' width chunks'
            (match line with Some l => lines ++ [l] | None => lines end)
      end
  end.

Definition _wrap_chunks (width : Z) (chunks : list str) : result (list str) :=
  if width <=? 0 then Raise ValueError
  else match wrap_loop (weight chunks) width chunks [] with
       | Some lines => Ok lines
       | None => Raise OutOfFuel
       end.

(** [textwrap.wrap(text, width)]; [fix_sentence_endings] is off and
    [max_lines] is [None]. *)
Definition wrap (text : str) (width : Z) : result (list str) :=
  match _split_chunks text with
  | Some chunks => _wrap_chunks width chunks
  | None => Raise OutOfFuel
  end.

End TextWrap.

(* ===================================================================== *)
(** * The [Flashcard] class *)
(* ===================================================================== *)

Module Flashcards.
Import PyStr.

Definition MAX_WIDTH : Z := 70.
Definition MIN_CONTENT_HEIGHT : Z := 6.
Definition BORDER : ascii := "*"%char.

Record Flashcard := mkFlashcard {
  max_card_width : Z;
  min_content_height : Z;
  topic : str;
  content : str;
  keywords : option str;
  hide_content : bool
}.

Definition __init__ (topic content : str) (keywords : option str)
    (max_card_width min_content_height : Z) : Flashcard :=
  {| max_card_width := max_card_width;
     min_content_height := min_content_height;
     topic := topic;
     content := content;
     keywords := keywords;
     hide_content := true |}.

(** ** Effects

    A method runs on the object [self] and on the terminal.  The terminal
    is the trace of what the program did to it, oldest event first, and the
    name of the host system ([os.name]). *)

Inductive event :=
| System (cmd : str)     (* [os.system(cmd)] *)
| Print (line : str)     (* [print(line)] *)
| Input.                 (* [input()], the line read is dropped *)

Record world := mkWorld {
  os_name : str;
  trace : list event
}.

Definition state : Type := Flashcard * world.

Definition M (A : Type) : Type := state -> result A * state.

Definition ret {A} (a : A) : M A := fun s => (Ok a, s).

Definition bind {A B} (m : M A) (k : A -> M B) : M B :=
  fun s =>
    match m s with
    | (Ok a, s') => k a s'
    | (Raise e, s') => (Raise e, s')
    end.

Declare Scope py_scope.
Delimit Scope py_scope with py.
Notation "x <- m ;; k" := (bind m (fun x => k))
  (at level 100, m at next level, right associativity) : py_scope.
Notation "m ;; k" := (bind m (fun _ => k))
  (at level 100, right associativity) : py_scope.
Local Open Scope py_scope.

(** [self.attr] *)
Definition self_ {A} (attr : Flashcard -> A) : M A :=
  fun s => (Ok (attr (fst s)), s).

(** [self.hide_content = b] *)
Definition set_hide_content (b : bool) : M unit :=
  fun s =>
    let fc := fst s in
    (Ok tt,
     ({| max_card_width := max_card_width fc;
         min_content_height := min_content_height fc;
         topic := topic fc;
         content := content fc;
         keywords := keywords fc;
         hide_content := b |}, snd s)).

Definition emit (e : event) : M unit :=
  fun s =>
    (Ok tt, (fst s, {| os_name := os_name (snd s);
                       trace := trace (snd s) ++ [e] |})).

Definition print (line : str) : M unit := emit (Print line).
Definition os_system (cmd : str) : M unit := emit (System cmd).
Definition input : M unit := emit Input.
Definition get_os_name : M str := fun s => (Ok (os_name (snd s)), s).

(** What a call returns and the state it leaves. *)
Definition value {A} (m : M A) (s : state) : result A := fst (m s).
Definition state_after {A} (m : M A) (s : state) : state := snd (m s).

(** The outcome of a call that touches neither [self] nor the terminal. *)
Definition lift {A} (r : result A) : M A := fun s => (r, s).

(** [for x in xs: body(x)] *)
Fixpoint for_each {A} (xs : list A) (body : A -> M unit) : M unit :=
  match xs with
  | [] => ret tt
  | x :: xs' => body x ;; for_each xs' body
  end.

(** ** Methods *)

Definition format_data (line : str) (max_length : Z) : result (list str) :=
  let line := join [SPACE] (split line) in
  let words_in_line := replace TAB SPACE (replace NEWLINE SPACE line) in
  TextWrap.wrap words_in_line (max_length - 5).

Definition style_on_line (line : str) (max_length : Z) (border : ascii) : str :=
  center (center line (max_length - 2) SPACE) max_length border.

Definition clean : M unit :=
  name <- get_os_name ;;
  if list_eq_dec ascii_dec name (lit "posix")
  then os_system (lit "clear")
  else os_system (lit "cls").

Definition get_topic : M (list str) :=
  let topic_lines := [[]] in
  line <- self_ topic ;;
  width <- self_ max_card_width ;;
  formatted <- lift (format_data line width) ;;
  let topic_lines := topic_lines ++ formatted in
  let topic_lines := topic_lines ++ [[]] in
  width <- self_ max_card_width ;;
  ret (map (fun l => style_on_line l width BORDER) topic_lines).

(** [[''] * n] *)
Definition blank_lines (n : Z) : list str := repeat [] (Z.to_nat n).

Definition llen (lines : list str) : Z := Z.of_nat (List.length lines).

Definition get_content : M (list str) :=
  let content_lines := [[]] in
  line <- self_ content ;;
  width <- self_ max_card_width ;;
  formatted_content <- lift (format_data line width) ;;
  hidden <- self_ hide_content ;;
  content_lines <-
    (if hidden : bool then
       let initial_content := lit "Press [Enter] to show content" in
       width <- self_ max_card_width ;;
       shown <- lift (format_data initial_content width) ;;
       ret (content_lines ++ shown)
     else ret (content_lines ++ formatted_content)) ;;
  let content_lines := content_lines ++ [[]] in
  let current_height := llen content_lines in
  let expected_height := llen formatted_content in
  min_height <- self_ min_content_height ;;
  let height :=
    if expected_height >? min_height then expected_height else min_height in
  let height := if current_height >? height then current_height else height in
  let content_lines := content_lines ++ blank_lines (height - current_height) in
  width <- self_ max_card_width ;;
  ret (map (fun l => style_on_line l width BORDER) content_lines).

(** [self.keywords.split()] on [None] raises [AttributeError]. *)
Definition get_keywords : M (list str) :=
  let topic_lines := [[]] in
  kw <- self_ keywords ;;
  width <- self_ max_card_width ;;
  formatted <-
    lift (match kw with
          | Some line => format_data line width
          | None => Raise AttributeError
          end) ;;
  let topic_lines := topic_lines ++ formatted in
  let topic_lines := topic_lines ++ [[]] in
  width <- self_ max_card_width ;;
  ret (map (fun l => style_on_line l width BORDER) topic_lines).

(** Truth value of [self.keywords]: [None] and the empty string are
    false. *)
Definition truthy (kw : option str) : bool :=
  match kw with
  | Some (_ :: _) => true
  | _ => false
  end.

Definition get_lines_to_draw (border : str) : M (list str) :=
  let lines := [[NEWLINE]] in
  width <- self_ max_card_width ;;
  let horizontal_border := mul border width in
  let lines := lines ++ [horizontal_border] in
  block <- get_topic ;;
  let lines := lines ++ block in
  let lines := lines ++ [horizontal_border] in
  let lines := lines ++ [horizontal_border] in
  block <- get_content ;;
  let lines := lines ++ block in
  kw <- self_ keywords ;;
  lines <-
    (if truthy kw then
       let lines := lines ++ [horizontal_border] in
       let lines := lines ++ [horizontal_border] in
       block <- get_keywords ;;
       ret (lines ++ block)
     else ret lines) ;;
  let lines := lines ++ [horizontal_border] in
  ret lines.

Definition draw : M unit :=
  lines <- get_lines_to_draw [BORDER] ;;
  for_each lines print ;;
  hidden <- self_ hide_content ;;
  set_hide_content (negb hidden).

Definition run : M unit := clean ;; draw.

(** ** The session *)

(** [lst[i] = v] for an index within the list. *)
Fixpoint set_item {A} (lst : list A) (i : nat) (v : A) : list A :=
  match lst, i with
  | [], _ => []
  | _ :: tl, O => v :: tl
  | x :: tl, S i' => x :: set_item tl i' v
  end.

(** [x[i], x[j] = x[j], x[i]] *)
Definition swap {A} (x : list A) (i j : nat) : list A :=
  match nth_error x j, nth_error x i with
  | Some xj, Some xi => set_item (set_item x i xj) j xi
  | _, _ => x
  end.

(** One record of the parsed file, as [start] passes it to the
    constructor: [Flashcard( **data )]. *)
Record card_data := mkData {
  data_topic : str;
  data_content : str;
  data_keywords : option str;
  data_max_card_width : option Z;
  data_min_content_height : option Z
}.

Definition default {A} (o : option A) (d : A) : A :=
  match o with Some a => a | None => d end.

Definition construct (parsed_file : list card_data) : list Flashcard :=
  map (fun data =>
         __init__ (data_topic data) (data_content data) (data_keywords data)
           (default (data_max_card_width data) MAX_WIDTH)
           (default (data_min_content_height data) MIN_CONTENT_HEIGHT))
      parsed_file.

Section Session.

(** The random source: [randbelow n] is the number the generator
    hands out when asked for one below [n].  [random.shuffle] asks once
    for each [n] from [len x] down to 2. *)
Variable randbelow : nat -> nat.

(** [for i in reversed(range(1, len(x)))] with [i] counting down. *)
Fixpoint shuffle_from {A} (i : nat) (x : list A) : list A :=
  match i with
  | O => x
  | S i' =>
      let j := (randbelow (S i) mod S i)%nat in
      shuffle_from i' (swap x i j)
  end.

Definition shuffle {A} (x : list A) : list A :=
  shuffle_from (List.length x - 1) x.

(** [for _ in range(n): body] *)
Fixpoint times (n : nat) (body : M unit) : M unit :=
  match n with
  | O => ret tt
  | S n' => body ;; times n' body
  end.

(** The loop over the cards: [done] are the cards already shown, in
    the state the loop left them.  An exception ends the loop. *)
Fixpoint for_cards (todo done : list Flashcard) (w : world)
  : result unit * list Flashcard * world :=
  match todo with
  | [] => (Ok tt, done, w)
  | fc :: rest =>
      match times 2 (run ;; input) (fc, w) with
      | (Ok _, (fc', w')) => for_cards rest (done ++ [fc']) w'
      | (Raise e, (fc', w')) => (Raise e, done ++ fc' :: rest, w')
      end
  end.

Definition run_flashcards (flashcards : list Flashcard) (ordered : bool)
    (w : world) : result unit * list Flashcard * world :=
  let flashcards := if negb ordered then shuffle flashcards else flashcards in
  for_cards flashcards [] w.

End Session.

End Flashcards.

(* ===================================================================== *)
(** * The vocabulary of the specification *)
(* ===================================================================== *)

Module Spec.
Import PyStr Flashcards.

(** ** Line formatter *)

(** The whitespace-collapsed input and its words. *)
Definition collapse (text : str) : str := join [SPACE] (split text).
Definition words (text : str) : list str := split (collapse text).

(** The word stands whole on one of the lines. *)
Definition kept_whole (word : str) (lines : list str) : Prop :=
  exists l, In l lines /\ In word (split l).

(** No word of the collapsed input is split across two lines. *)
Definition no_word_split (text : str) (lines : list str) : Prop :=
  forall word, In word (words text) -> kept_whole word lines.

(** Stripping a character from both ends. *)
Fixpoint lstrip (c : ascii) (s : str) : str :=
  match s with
  | d :: s' => if Ascii.eqb d c then lstrip c s' else s
  | [] => []
  end.

Definition rstrip (c : ascii) (s : str) : str := rev (lstrip c (rev s)).

Definition strip (c : ascii) (s : str) : str := rstrip c (lstrip c s).

(** What is left of a framed line when the border character is stripped
    from both ends and the spaces are trimmed. *)
Definition unframe (framed : str) (border_char : ascii) : str :=
  strip SPACE (strip border_char framed).

(** The text does not start with [c]. *)
Definition not_first (c : ascii) (m : str) : Prop :=
  match m with
  | d :: _ => d <> c
  | [] => True
  end.

(** The text does not end with [c]. *)
Definition not_last (c : ascii) (m : str) : Prop := not_first c (rev m).

(** ** Card renderer *)

Definition PLACEHOLDER : str := lit "Press [Enter] to show content".

(** The text the content block shows in the state of the card. *)
Definition shown_text (c : Flashcard) : str :=
  if hide_content c then PLACEHOLDER else content c.

Definition framed (c : Flashcard) (lines : list str) : list str :=
  map (fun l => style_on_line l (max_card_width c) BORDER) lines.

Definition wrapped (c : Flashcard) (text : str) : result (list str) :=
  format_data text (max_card_width c).

(** One blank framed line, the wrapped and framed lines, one blank framed
    line. *)
Definition topic_block (c : Flashcard) : result (list str) :=
  and_then (wrapped c (topic c)) (fun lines =>
  Ok (framed c ([[]] ++ lines ++ [[]]))).

Definition keywords_block (c : Flashcard) : result (list str) :=
  match keywords c with
  | Some kw =>
      and_then (wrapped c kw) (fun lines =>
      Ok (framed c ([[]] ++ lines ++ [[]])))
  | None => Raise AttributeError
  end.

(** One blank framed line, the wrapped and framed shown text, one blank
    framed line, and blank framed lines up to the height
    [max(min_content_height, wrapped content line count, height so far)]. *)
Definition content_block (c : Flashcard) : result (list str) :=
  and_then (wrapped c (content c)) (fun formatted =>
  and_then (wrapped c (shown_text c)) (fun shown =>
  let current := llen ([[]] ++ shown ++ [[]]) in
  let height :=
    Z.max (Z.max (min_content_height c) (llen formatted)) current in
  Ok (framed c ([[]] ++ shown ++ [[]] ++ blank_lines (height - current))))).

(** A full-width border line. *)
Definition border_line (border_char : ascii) (c : Flashcard) : str :=
  repeat border_char (Z.to_nat (max_card_width c)).

(** The rendering, with the test that decides whether the keywords block
    is part of it left open. *)
Definition render_with (include_keywords : option str -> bool)
    (border_char : ascii) (c : Flashcard) : result (list str) :=
  let hb := border_line border_char c in
  and_then (topic_block c) (fun t =>
  and_then (content_block c) (fun ct =>
  if include_keywords (keywords c) then
    and_then (keywords_block c) (fun kw =>
    Ok ([[NEWLINE]] ++ [hb] ++ t ++ [hb; hb] ++ ct ++ [hb; hb] ++ kw ++ [hb]))
  else Ok ([[NEWLINE]] ++ [hb] ++ t ++ [hb; hb] ++ ct ++ [hb]))).

(** Keywords are present. *)
Definition present (kw : option str) : bool :=
  match kw with Some _ => true | None => false end.

(** The rendering as the code assembles it. *)
Definition render (c : Flashcard) : result (list str) :=
  render_with truthy BORDER c.

(** ** Session runner *)

Definition lines_of (r : result (list str)) : list str :=
  match r with Ok lines => lines | Raise _ => [] end.

Definition with_hidden (c : Flashcard) (hidden : bool) : Flashcard :=
  {| max_card_width := max_card_width c;
     min_content_height := min_content_height c;
     topic := topic c;
     content := content c;
     keywords := keywords c;
     hide_content := hidden |}.

Definition clear_screen (os : str) : event :=
  if list_eq_dec ascii_dec os (lit "posix")
  then System (lit "clear") else System (lit "cls").

(** One phase: the terminal is cleared, the card is drawn, one line is
    read. *)
Definition phase (os : str) (c : Flashcard) (hidden : bool) : list event :=
  [clear_screen os]
    ++ map Print (lines_of (render (with_hidden c hidden)))
    ++ [Input].

(** Each card in turn: the hidden phase, then the revealed phase. *)
Definition session (os : str) (cards : list Flashcard) : list event :=
  flat_map (fun c => phase os c true ++ phase os c false) cards.

End Spec.

(* ===================================================================== *)
(** * Sample cards *)
(* ===================================================================== *)

Module Examples.
Import PyStr Flashcards.

Definition posix_terminal : world := {| os_name := lit "posix"; trace := [] |}.

(** The record of the end-to-end scenario. *)
Definition france_data : card_data :=
  {| data_topic := lit "Capital of France";
     data_content := lit "Paris";
     data_keywords := Some (lit "geography");
     data_max_card_width := None;
     data_min_content_height := None |}.

Definition france : Flashcard :=
  __init__ (lit "Capital of France") (lit "Paris") (Some (lit "geography"))
    MAX_WIDTH MIN_CONTENT_HEIGHT.

(** An answer of 55 words, which fills five lines of a card of the
    default width. *)
Definition long_answer : str := join [SPACE] (repeat (lit "lorem") 55).

Definition essay : Flashcard :=
  __init__ (lit "Filler text") long_answer None MAX_WIDTH MIN_CONTENT_HEIGHT.

(** A card the keywords of which are the empty string. *)
Definition empty_keywords : Flashcard :=
  __init__ (lit "Capital of France") (lit "Paris") (Some [])
    MAX_WIDTH MIN_CONTENT_HEIGHT.

(** A record that asks for a card five columns wide. *)
Definition narrow_data : card_data :=
  {| data_topic := lit "a";
     data_content := lit "b";
     data_keywords := None;
     data_max_card_width := Some 5;
     data_min_content_height := None |}.

End Examples.

(* ===================================================================== *)
(** * Notions used in the proofs *)
(* ===================================================================== *)

Module Analysis.
Import PyStr TextWrap Flashcards.

(** ** One pass of the outer loop of [_wrap_chunks], step by step *)

(** Number of characters of a list of chunks. *)
Definition chars (chunks : list str) : Z := len (List.concat chunks).

(** Where [_handle_long_word] cuts the chunk. *)
Definition cut_point (chunk : str) (cur_len width : Z) : Z :=
  let space_left := if width <? 1 then 1 else width - cur_len in
  if len chunk >? space_left then
    let hyphen := rfind chunk HYPHEN space_left in
    if (hyphen >? 0) && any_non_hyphen (slice_to chunk hyphen)
    then hyphen + 1 else space_left
  else space_left.

(** The stack after the whitespace chunk at the start of a later line is
    dropped. *)
Definition drop_leading (chunks lines : list str) : list str :=
  match chunks with
  | c :: rest =>
      if strip_is_empty c && negb (Nat.eqb (List.length lines) 0) then rest
      else chunks
  | [] => chunks
  end.

(** The line without the whitespace chunk at its end. *)
Definition drop_trailing (cur_line : list str) : list str :=
  match rev cur_line with
  | c :: _ => if strip_is_empty c then removelast cur_line else cur_line
  | [] => cur_line
  end.

Definition finish (cur_line : list str) : option str :=
  match cur_line with
  | [] => None
  | _ :: _ => Some (List.concat cur_line)
  end.

(** What one pass does: [taken] are the chunks that fit; the chunk after
    them is left alone when it can fit on a later line, and cut when it is
    wider than any line. *)
Inductive pass (width : Z) (chunks lines : list str)
  : option str -> list str -> Prop :=
| pass_fit (taken rest : list str) :
    drop_leading chunks lines = taken ++ rest ->
    chars taken <= width ->
    match rest with
    | c :: _ => len c <= width /\ width < chars taken + len c
    | [] => True
    end ->
    pass width chunks lines (finish (drop_trailing taken)) rest
| pass_cut (taken : list str) (c : str) (rest : list str) :
    drop_leading chunks lines = taken ++ c :: rest ->
    chars taken <= width ->
    width < len c ->
    pass width chunks lines
      (finish (drop_trailing
                 (taken ++ [slice_to c (cut_point c (chars taken) width)])))
      (slice_from c (cut_point c (chars taken) width) :: rest).

(** ** Words and chunks *)

(** A word: at least one character, none of them whitespace. *)
Definition is_word_str (w : str) : Prop :=
  w <> [] /\ Forall (fun c => isspace c = false) w.

(** Nothing, or a text the last character of which is whitespace. *)
Definition ends_blank (x : str) : Prop :=
  x = [] \/ exists x' c, x = x' ++ [c] /\ isspace c = true.

(** Nothing, or a text the first character of which is whitespace. *)
Definition starts_blank (y : str) : Prop :=
  y = [] \/ exists c y', y = c :: y' /\ isspace c = true.

(** A character of the collapsed text: the separator or a character of a
    word. *)
Definition collapsed_char (c : ascii) : Prop := c = SPACE \/ isspace c = false.

(** The chunks [_split] cuts the text into from a position on. *)
Definition chunks_of (before after : str) : list str :=
  match re_split (List.length after) before after [] with
  | Some pieces => filter nonempty pieces
  | None => []
  end.

(** A text without [textwrap] whitespace. *)
Definition solid (u : str) : Prop := Forall (fun c => is_ws c = false) u.

(** The end of the text or a [textwrap] whitespace character. *)
Definition word_end (tail : str) : Prop :=
  tail = [] \/ exists s t, tail = s :: t /\ is_ws s = true.

(** A whitespace chunk. *)
Definition blank (s : str) : Prop := s <> [] /\ strip_is_empty s = true.

Definition blank_end (pre : list str) : Prop :=
  pre = [] \/ exists p s, pre = p ++ [s] /\ blank s.

Definition blank_start (post : list str) : Prop :=
  post = [] \/ exists s p, post = s :: p /\ blank s.

(** The chunk [w] stands between whitespace chunks or the ends of the
    list. *)
Definition isolated (w : str) (chunks : list str) : Prop :=
  exists pre post,
    chunks = pre ++ w :: post /\ blank_end pre /\ blank_start post.

(** The characters of a text that are not whitespace. *)
Definition ink (s : str) : str := filter (fun c => negb (isspace c)) s.

(** The text of the line a pass appends. *)
Definition line_text (line : option str) : str :=
  match line with Some l => l | None => [] end.

(** ** Cards *)

(** Unfolds the plumbing of the method monad. *)
Ltac run_method :=
  unfold bind, self_, lift, ret; cbn [fst snd].

(** A newly constructed card that is wide enough to be rendered. *)
Definition ready (fc : Flashcard) : Prop :=
  5 < max_card_width fc /\ hide_content fc = true.

End Analysis.

(* ===================================================================== *)
(** * Theorems *)
(* ===================================================================== *)

Module PyStrFacts.
Import Analysis PyStr.

Lemma len_nil : len [] = 0.
Proof. reflexivity. Qed.

Lemma len_cons (c : ascii) (s : str) : len (c :: s) = 1 + len s.
Proof. unfold len. simpl List.length. lia. Qed.

Lemma len_app (s t : str) : len (s ++ t) = len s + len t.
Proof. unfold len. rewrite length_app. lia. Qed.

Lemma len_repeat (c : ascii) (n : nat) : len (repeat c n) = Z.of_nat n.
Proof. unfold len. now rewrite repeat_length. Qed.

Lemma len_nonneg (s : str) : 0 <= len s.
Proof. unfold len. lia. Qed.

(** The low bit picked by [marg & width & 1]. *)
Lemma land_bit (a b : Z) : 0 <= Z.land (Z.land a b) 1 <= 1.
Proof.
  assert (E : Z.land (Z.land a b) 1 = Z.land a b mod 2).
  { apply (Z.land_ones (Z.land a b) 1). lia. }
  rewrite E. pose proof (Z.mod_pos_bound (Z.land a b) 2). lia.
Qed.

Lemma center_left_bound (marg width : Z) :
  1 <= marg ->
  0 <= marg / 2 + Z.land (Z.land marg width) 1 <= marg.
Proof.
  intros Hm. pose proof (land_bit marg width) as Hb.
  assert (0 <= marg / 2) by (apply Z.div_pos; lia).
  split; [lia|].
  destruct (Z.eq_dec marg 1) as [->|E].
  - change (1 / 2) with 0. lia.
  - assert (2 * (marg / 2) <= marg) by (apply Z.mul_div_le; lia).
    assert (1 <= marg / 2) by (apply Z.div_le_lower_bound; lia).
    lia.
Qed.

Lemma center_pads (s : str) (width : Z) (c : ascii) :
  len s < width ->
  exists l r : nat,
    center s width c = repeat c l ++ s ++ repeat c r
    /\ Z.of_nat l + Z.of_nat r = width - len s.
Proof.
  intros Hlt. unfold center.
  destruct (Z.leb_spec width (len s)) as [H|H]; [lia|].
  pose proof (center_left_bound (width - len s) width) as Hb.
  exists (Z.to_nat ((width - len s) / 2
                    + Z.land (Z.land (width - len s) width) 1)),
         (Z.to_nat (width - len s
                    - ((width - len s) / 2
                       + Z.land (Z.land (width - len s) width) 1))).
  split; [reflexivity|lia].
Qed.

Lemma center_length (s : str) (width : Z) (c : ascii) :
  len (center s width c) = Z.max (len s) width.
Proof.
  destruct (Z.lt_ge_cases (len s) width) as [H|H].
  - destruct (center_pads s width c H) as (l & r & -> & Hlr).
    rewrite !len_app, !len_repeat. lia.
  - unfold center. destruct (Z.leb_spec width (len s)); lia.
Qed.

(** With two columns to fill, one fill character goes to each side. *)
Lemma center_two (s : str) (width : Z) (c : ascii) :
  width = len s + 2 -> center s width c = [c] ++ s ++ [c].
Proof.
  intros ->. unfold center.
  destruct (Z.leb_spec (len s + 2) (len s)) as [H|H]; [lia|].
  replace (len s + 2 - len s) with 2 by lia.
  assert (E : Z.land (Z.land 2 (len s + 2)) 1 = 0).
  { rewrite <- Z.land_assoc, (Z.land_comm (len s + 2)), Z.land_assoc.
    reflexivity. }
  rewrite E. reflexivity.
Qed.

End PyStrFacts.

Module TextWrapFacts.
Import Analysis PyStr TextWrap PyStrFacts.

(** ** Every match of [wordsep_re] is non-empty and inside the text *)

Lemma run_length_le (p : ascii -> bool) (s : str) :
  (run_length p s <= List.length s)%nat.
Proof. induction s as [|c s IH]; simpl; [lia|]. destruct (p c); simpl; lia. Qed.

Lemma alt_whitespace_bounds (after : str) (n : nat) :
  alt_whitespace after = Some n -> (1 <= n <= List.length after)%nat.
Proof.
  unfold alt_whitespace. pose proof (run_length_le is_ws after) as H.
  destruct (run_length is_ws after) eqn:E; [discriminate|].
  intros [= <-]. lia.
Qed.

Lemma dashes_then_word_bounds (after : str) (n : nat) :
  dashes_then_word after = Some n -> (2 <= n <= List.length after)%nat.
Proof.
  unfold dashes_then_word. pose proof (run_length_le is_hyphen after) as H.
  destruct (Nat.leb_spec 2 (run_length is_hyphen after)); [|discriminate].
  destruct (skipn _ after) as [|c ?]; [discriminate|].
  destruct (is_word c); [|discriminate].
  intros [= <-]. lia.
Qed.

Lemma alt_em_dash_bounds (before after : str) (n : nat) :
  alt_em_dash before after = Some n -> (1 <= n <= List.length after)%nat.
Proof.
  unfold alt_em_dash. destruct before as [|b ?]; [discriminate|].
  destruct (is_word_punct b); [|discriminate].
  intros H%dashes_then_word_bounds. lia.
Qed.

Lemma hyphen_break_cons (before after : str) :
  hyphen_break before after = true -> exists h ahead, after = h :: ahead.
Proof. destruct after as [|h ahead]; [discriminate|eauto]. Qed.

Lemma word_tail_bounds (after before : str) (n m : nat) :
  word_tail before after n = Some m -> (n <= m <= n + List.length after)%nat.
Proof.
  revert before n.
  induction after as [|c after IH]; intros before n; cbn [word_tail].
  - destruct (hyphen_break before []) eqn:E.
    + apply hyphen_break_cons in E as (? & ? & [=]).
    + cbn [end_of_word]. intros [= <-]. simpl. lia.
  - destruct (hyphen_break before (c :: after)); [intros [= <-]; simpl; lia|].
    cbn [end_of_word].
    destruct (is_ws c) eqn:Ews; [intros [= <-]; simpl; lia|].
    destruct (em_dash_ahead before (c :: after)); [intros [= <-]; simpl; lia|].
    intros H%IH. simpl. lia.
Qed.

Lemma alt_word_bounds (before after : str) (n : nat) :
  alt_word before after = Some n -> (1 <= n <= List.length after)%nat.
Proof.
  unfold alt_word. destruct after as [|c after]; [discriminate|].
  destruct (is_ws c); [discriminate|].
  intros H%word_tail_bounds. simpl. lia.
Qed.

Lemma wordsep_match_bounds (before after : str) (n : nat) :
  wordsep_match before after = Some n -> (1 <= n <= List.length after)%nat.
Proof.
  unfold wordsep_match.
  destruct (alt_whitespace after) eqn:E1.
  { intros [= <-]. now apply alt_whitespace_bounds. }
  destruct (alt_em_dash before after) eqn:E2.
  { intros [= <-]. now apply alt_em_dash_bounds in E2. }
  apply alt_word_bounds.
Qed.

(** The pattern matches at every position of a non-empty rest. *)
Lemma word_tail_matches (after before : str) (n : nat) :
  exists m, word_tail before after n = Some m.
Proof.
  revert before n.
  induction after as [|c after IH]; intros before n; cbn [word_tail].
  - destruct (hyphen_break before []); cbn [end_of_word]; eauto.
  - destruct (hyphen_break before (c :: after)); eauto.
    cbn [end_of_word]. destruct (is_ws c); eauto.
    destruct (em_dash_ahead before (c :: after)); eauto.
Qed.

Lemma wordsep_match_some (before : str) (c : ascii) (after : str) :
  exists n, wordsep_match before (c :: after) = Some n.
Proof.
  unfold wordsep_match.
  destruct (alt_whitespace (c :: after)) eqn:E1; eauto.
  destruct (alt_em_dash before (c :: after)); eauto.
  unfold alt_word.
  destruct (is_ws c) eqn:Ews.
  - unfold alt_whitespace in E1. simpl in E1. rewrite Ews in E1. discriminate.
  - apply word_tail_matches.
Qed.

(** ** [re_split] never exhausts its budget *)

Lemma re_split_total (fuel : nat) (before after pending : str) :
  (List.length after <= fuel)%nat ->
  exists pieces, re_split fuel before after pending = Some pieces.
Proof.
  revert before after pending.
  induction fuel as [|fuel IH]; intros before after pending Hlen.
  - destruct after; [simpl; eauto|simpl in Hlen; lia].
  - destruct after as [|c after]; [simpl; eauto|].
    cbn [re_split].
    destruct (wordsep_match before (c :: after)) as [n|] eqn:E.
    + apply wordsep_match_bounds in E.
      destruct (IH (rev (firstn n (c :: after)) ++ before)
                  (skipn n (c :: after)) []) as [pieces Hp].
      { rewrite length_skipn. lia. }
      rewrite Hp. eauto.
    + apply IH. simpl in Hlen. lia.
Qed.

Lemma _split_total (text : str) : exists chunks, _split text = Some chunks.
Proof.
  unfold _split.
  destruct (re_split_total (List.length text) [] text []) as [pieces ->]; eauto.
Qed.

Lemma _split_chunks_total (text : str) :
  exists chunks, _split_chunks text = Some chunks.
Proof. apply _split_total. Qed.

End TextWrapFacts.

Module WrapFacts.
Import Analysis PyStr TextWrap PyStrFacts TextWrapFacts.

Lemma chars_nil : chars [] = 0.
Proof. reflexivity. Qed.

Lemma chars_cons (c : str) (l : list str) : chars (c :: l) = len c + chars l.
Proof. unfold chars. simpl. apply len_app. Qed.

Lemma chars_app (l1 l2 : list str) : chars (l1 ++ l2) = chars l1 + chars l2.
Proof. unfold chars. rewrite concat_app. apply len_app. Qed.

Lemma chars_nonneg (l : list str) : 0 <= chars l.
Proof. apply len_nonneg. Qed.

Lemma weight_app (l1 l2 : list str) :
  weight (l1 ++ l2) = (weight l1 + weight l2)%nat.
Proof. induction l1 as [|c l1 IH]; simpl; [reflexivity|]. rewrite IH. lia. Qed.

(** ** The inner loop *)

Lemma take_fitting_spec (width : Z) (chunks cur_line : list str) (cur_len : Z) :
  exists taken rest,
    take_fitting width chunks cur_line cur_len
      = (cur_line ++ taken, cur_len + chars taken, rest)
    /\ chunks = taken ++ rest
    /\ (taken = [] \/ cur_len + chars taken <= width)
    /\ match rest with
       | c :: _ => width < cur_len + chars taken + len c
       | [] => True
       end.
Proof.
  revert cur_line cur_len.
  induction chunks as [|c chunks IH]; intros cur_line cur_len; cbn [take_fitting].
  - exists [], []. rewrite app_nil_r, chars_nil, Z.add_0_r. auto.
  - destruct (Z.leb_spec (cur_len + len c) width) as [Hfit|Hno].
    + destruct (IH (cur_line ++ [c]) (cur_len + len c))
        as (taken & rest & -> & -> & Hsum & Hrest).
      exists (c :: taken), rest. rewrite chars_cons, <- app_assoc.
      replace (cur_len + (len c + chars taken))
        with (cur_len + len c + chars taken) by lia.
      repeat split; auto.
      right. destruct Hsum as [->|H]; [rewrite chars_nil|]; lia.
    + exists [], (c :: chunks).
      rewrite app_nil_r, chars_nil, Z.add_0_r. repeat split; auto; lia.
Qed.

(** ** Slices *)

Lemma slice_split (s : str) (k : Z) : slice_to s k ++ slice_from s k = s.
Proof. apply firstn_skipn. Qed.

Lemma clip_le (n i : Z) : 0 <= i -> Z.of_nat (clip n i) <= i.
Proof. intros H. unfold clip. destruct (Z.ltb_spec i 0); lia. Qed.

Lemma clip_pos (n i : Z) : 1 <= i -> 1 <= n -> (1 <= clip n i)%nat.
Proof. intros H1 H2. unfold clip. destruct (Z.ltb_spec i 0); lia. Qed.

Lemma len_slice_to (s : str) (k : Z) : 0 <= k -> len (slice_to s k) <= k.
Proof.
  intros H. unfold slice_to, len at 1. rewrite length_firstn.
  pose proof (clip_le (len s) k H). lia.
Qed.

Lemma length_slice_from (s : str) (k : Z) :
  1 <= k -> s <> [] -> (List.length (slice_from s k) < List.length s)%nat.
Proof.
  intros Hk Hs. unfold slice_from. rewrite length_skipn.
  assert (1 <= len s).
  { destruct s; [congruence|]. rewrite len_cons. pose proof (len_nonneg s). lia. }
  pose proof (clip_pos (len s) k Hk H). unfold len in *. lia.
Qed.

Lemma length_slice_from_le (s : str) (k : Z) :
  (List.length (slice_from s k) <= List.length s)%nat.
Proof. unfold slice_from. rewrite length_skipn. lia. Qed.

Lemma last_index_lt (c : ascii) (s : str) (i : nat) :
  last_index c s = Some i -> (i < List.length s)%nat.
Proof.
  revert i. induction s as [|d s IH]; intros i; simpl; [discriminate|].
  destruct (last_index c s) as [j|].
  - intros [= <-]. specialize (IH j eq_refl). lia.
  - destruct (Ascii.eqb d c); [intros [= <-]; lia|discriminate].
Qed.

Lemma rfind_lt (s : str) (c : ascii) (stop : Z) :
  0 <= stop -> rfind s c stop < stop \/ rfind s c stop = -1.
Proof.
  intros H. unfold rfind.
  destruct (last_index c (slice_to s stop)) as [i|] eqn:E; [left|now right].
  apply last_index_lt in E. pose proof (len_slice_to s stop H). unfold len in *. lia.
Qed.

(** ** [_handle_long_word] *)

Lemma _handle_long_word_cons (chunk : str) (rest cur_line : list str)
    (cur_len width : Z) :
  _handle_long_word (chunk :: rest) cur_line cur_len width
  = (cur_line ++ [slice_to chunk (cut_point chunk cur_len width)],
     slice_from chunk (cut_point chunk cur_len width) :: rest).
Proof. reflexivity. Qed.

Lemma cut_point_bounds (chunk : str) (cur_len width : Z) :
  1 <= width -> cur_len <= width ->
  0 <= cut_point chunk cur_len width <= width - cur_len
  /\ (cur_len < width -> 1 <= cut_point chunk cur_len width).
Proof.
  intros Hw Hc. unfold cut_point.
  destruct (Z.ltb_spec width 1); [lia|].
  destruct (len chunk >? width - cur_len); [|lia].
  destruct (rfind_lt chunk HYPHEN (width - cur_len)) as [Hr|Hr]; [lia| |].
  - destruct (Z.gtb_spec (rfind chunk HYPHEN (width - cur_len)) 0); simpl.
    + destruct (any_non_hyphen _); lia.
    + lia.
  - rewrite Hr. simpl. lia.
Qed.

End WrapFacts.

Module LoopFacts.
Import Analysis PyStr TextWrap PyStrFacts TextWrapFacts WrapFacts.

(** ** One pass of the outer loop, step by step *)

Lemma finish_pair (cur_line rest : list str) :
  match cur_line with
  | [] => (None, rest)
  | _ :: _ => (Some (List.concat cur_line), rest)
  end = (finish cur_line, rest).
Proof. destruct cur_line; reflexivity. Qed.

Lemma wrap_line_pass (width : Z) (chunks lines : list str) :
  0 <= width ->
  pass width chunks lines (fst (wrap_line width chunks lines))
    (snd (wrap_line width chunks lines)).
Proof.
  intros Hw. unfold wrap_line. fold (drop_leading chunks lines).
  destruct (take_fitting_spec width (drop_leading chunks lines) [] 0)
    as (taken & rest & -> & Hsplit & Hsum & Hrest).
  cbn [app]. rewrite Z.add_0_l in *.
  assert (Hle : chars taken <= width).
  { destruct Hsum as [->|H]; [rewrite chars_nil|]; lia. }
  destruct rest as [|c rest].
  - fold (drop_trailing taken). rewrite finish_pair.
    now apply pass_fit.
  - destruct (Z.gtb_spec (len c) width) as [Hlong|Hshort].
    + rewrite _handle_long_word_cons.
      fold (drop_trailing
              (taken ++ [slice_to c (cut_point c (chars taken) width)])).
      rewrite finish_pair.
      apply pass_cut; auto; lia.
    + fold (drop_trailing taken). rewrite finish_pair.
      apply pass_fit; auto. split; lia.
Qed.

(** ** Progress *)

Lemma weight_drop_leading (chunks lines : list str) :
  (weight (drop_leading chunks lines) <= weight chunks)%nat.
Proof.
  unfold drop_leading. destruct chunks as [|c rest]; [lia|].
  destruct (_ && _); simpl; lia.
Qed.

Lemma pass_progress (width : Z) (chunks lines : list str)
    (line : option str) (rest : list str) :
  1 <= width -> chunks <> [] ->
  pass width chunks lines line rest ->
  (weight rest < weight chunks)%nat.
Proof.
  intros Hw Hne Hpass.
  pose proof (weight_drop_leading chunks lines) as Hdrop.
  assert (Hcase : drop_leading chunks lines = chunks
                  \/ (weight (drop_leading chunks lines) < weight chunks)%nat).
  { unfold drop_leading. destruct chunks as [|c r]; [congruence|].
    destruct (_ && _); [right; simpl; lia|now left]. }
  destruct Hpass as [taken rest Hsplit Hle Hrest|taken c rest Hsplit Hle Hlong].
  - assert (weight (drop_leading chunks lines) = (weight taken + weight rest)%nat)
      as Hwt by (rewrite Hsplit; apply weight_app).
    destruct Hcase as [Heq|Hlt]; [|lia].
    destruct taken as [|t taken]; [|simpl in Hwt; lia].
    simpl in Hsplit. rewrite Heq in Hsplit. subst rest.
    destruct chunks as [|c r]; [congruence|].
    rewrite chars_nil in Hrest. lia.
  - assert (weight (drop_leading chunks lines)
            = (weight taken + weight (c :: rest))%nat)
      as Hwt by (rewrite Hsplit; apply weight_app).
    pose proof (length_slice_from_le c (cut_point c (chars taken) width)) as Hsl.
    simpl in *.
    destruct Hcase as [Heq|Hlt]; [|lia].
    destruct taken as [|t taken]; [|simpl in Hwt; lia].
    rewrite chars_nil in *.
    destruct (cut_point_bounds c 0 width Hw ltac:(lia)) as [_ Hpos].
    assert (c <> []) by (intros ->; rewrite len_nil in Hlong; lia).
    pose proof (length_slice_from c (cut_point c 0 width) ltac:(lia) H).
    simpl in Hwt. lia.
Qed.

(** ** [wrap_loop] never exhausts its budget *)

Lemma wrap_loop_total (width : Z) (fuel : nat) (chunks lines : list str) :
  1 <= width -> (weight chunks <= fuel)%nat ->
  exists out, wrap_loop fuel width chunks lines = Some out.
Proof.
  intros Hw. revert chunks lines.
  induction fuel as [|fuel IH]; intros chunks lines Hfuel.
  - destruct chunks; [simpl; eauto|simpl in Hfuel; lia].
  - destruct chunks as [|c chunks]; [simpl; eauto|].
    cbn [wrap_loop].
    pose proof (wrap_line_pass width (c :: chunks) lines ltac:(lia)) as Hpass.
    destruct (wrap_line width (c :: chunks) lines) as [line rest].
    apply pass_progress in Hpass; [|lia|congruence].
    apply IH. cbn [snd] in Hpass. lia.
Qed.

Lemma wrap_chunks_total (width : Z) (chunks : list str) :
  1 <= width -> exists lines, _wrap_chunks width chunks = Ok lines.
Proof.
  intros Hw. unfold _wrap_chunks.
  destruct (Z.leb_spec width 0); [lia|].
  destruct (wrap_loop_total width (weight chunks) chunks [] Hw (le_n _))
    as [out ->]. eauto.
Qed.

Lemma wrap_chunks_invalid_width (width : Z) (chunks : list str) :
  width <= 0 -> _wrap_chunks width chunks = Raise ValueError.
Proof.
  intros Hw. unfold _wrap_chunks. destruct (Z.leb_spec width 0); [reflexivity|lia].
Qed.

(** ** No line is wider than [width] *)

Lemma chars_drop_trailing (cur_line : list str) :
  chars (drop_trailing cur_line) <= chars cur_line.
Proof.
  unfold drop_trailing.
  destruct (rev cur_line) as [|c r] eqn:E; [lia|].
  destruct (strip_is_empty c); [|lia].
  assert (cur_line <> []) by (intros ->; discriminate).
  assert (Hsplit : chars cur_line
                   = chars (removelast cur_line) + chars [last cur_line []]).
  { rewrite <- chars_app, <- app_removelast_last; auto. }
  pose proof (chars_nonneg [last cur_line []]). lia.
Qed.

Lemma finish_chars (cur_line : list str) (l : str) :
  finish cur_line = Some l -> len l = chars cur_line.
Proof. destruct cur_line; [discriminate|]. now intros [= <-]. Qed.

Lemma pass_width (width : Z) (chunks lines : list str)
    (line : option str) (rest : list str) :
  1 <= width ->
  pass width chunks lines line rest ->
  forall l, line = Some l -> len l <= width.
Proof.
  intros Hw Hpass l Hl.
  destruct Hpass as [taken rest Hsplit Hle Hrest|taken c rest Hsplit Hle Hlong];
    apply finish_chars in Hl; rewrite Hl.
  - pose proof (chars_drop_trailing taken). lia.
  - pose proof (chars_drop_trailing
                  (taken ++ [slice_to c (cut_point c (chars taken) width)])) as H.
    rewrite chars_app, chars_cons, chars_nil in H.
    destruct (cut_point_bounds c (chars taken) width Hw Hle) as [[H0 H1] _].
    pose proof (len_slice_to c _ H0). lia.
Qed.

Lemma wrap_loop_width (width : Z) (fuel : nat) (chunks lines out : list str) :
  1 <= width ->
  Forall (fun l => len l <= width) lines ->
  wrap_loop fuel width chunks lines = Some out ->
  Forall (fun l => len l <= width) out.
Proof.
  intros Hw. revert chunks lines.
  induction fuel as [|fuel IH]; intros chunks lines Hlines.
  - destruct chunks; simpl; [now intros [= <-]|discriminate].
  - destruct chunks as [|c chunks]; [simpl; now intros [= <-]|].
    cbn [wrap_loop].
    pose proof (wrap_line_pass width (c :: chunks) lines ltac:(lia)) as Hpass.
    destruct (wrap_line width (c :: chunks) lines) as [line rest].
    cbn [fst snd] in Hpass.
    apply IH. destruct line as [l|]; [|assumption].
    apply Forall_app; split; [assumption|].
    constructor; [|constructor].
    eapply pass_width; eauto.
Qed.

Lemma wrap_chunks_width (width : Z) (chunks lines : list str) :
  _wrap_chunks width chunks = Ok lines ->
  Forall (fun l => len l <= width) lines.
Proof.
  unfold _wrap_chunks. destruct (Z.leb_spec width 0); [discriminate|].
  destruct (wrap_loop _ width chunks []) as [out|] eqn:E; [|discriminate].
  intros [= <-]. eapply wrap_loop_width; eauto. lia.
Qed.

End LoopFacts.

Module SplitFacts.
Import Analysis PyStr TextWrap PyStrFacts.

Lemma ends_blank_tail (c : ascii) (x : str) :
  ends_blank (c :: x) -> x <> [] -> ends_blank x.
Proof.
  intros [H|(x' & d & H & Hd)] Hne; [discriminate|].
  right. destruct x' as [|c' x'].
  - simpl in H. injection H as -> ->. congruence.
  - simpl in H. injection H as -> ->. eauto.
Qed.

Lemma ends_blank_single (c : ascii) : ends_blank [c] -> isspace c = true.
Proof.
  intros [H|(x' & d & H & Hd)]; [discriminate|].
  destruct x' as [|c' x']; simpl in H.
  - now injection H as ->.
  - injection H as _ H. destruct x'; discriminate.
Qed.

Lemma split_cons_space (c : ascii) (s : str) :
  isspace c = true -> split (c :: s) = split s.
Proof. intros H. cbn [split]. now rewrite H. Qed.

Lemma split_single (c : ascii) : isspace c = false -> split [c] = [[c]].
Proof. intros H. cbn [split]. now rewrite H. Qed.

Lemma split_cons_word_space (c d : ascii) (s : str) :
  isspace c = false -> isspace d = true ->
  split (c :: d :: s) = [c] :: split (d :: s).
Proof.
  intros Hc Hd. change (split (c :: d :: s))
    with (if isspace c then split (d :: s)
          else if isspace d then [c] :: split (d :: s)
               else match split (d :: s) with
                    | w :: ws => (c :: w) :: ws
                    | [] => [[c]]
                    end).
  now rewrite Hc, Hd.
Qed.

Lemma split_cons_word_word (c d : ascii) (s : str) :
  isspace c = false -> isspace d = false ->
  split (c :: d :: s)
  = match split (d :: s) with
    | w :: ws => (c :: w) :: ws
    | [] => [[c]]
    end.
Proof.
  intros Hc Hd. change (split (c :: d :: s))
    with (if isspace c then split (d :: s)
          else if isspace d then [c] :: split (d :: s)
               else match split (d :: s) with
                    | w :: ws => (c :: w) :: ws
                    | [] => [[c]]
                    end).
  now rewrite Hc, Hd.
Qed.

Lemma split_head_nonspace (c : ascii) (s : str) :
  isspace c = false -> split (c :: s) <> [].
Proof.
  intros Hc. destruct s as [|d s].
  - now rewrite split_single.
  - destruct (isspace d) eqn:Hd.
    + now rewrite split_cons_word_space.
    + rewrite split_cons_word_word by assumption.
      destruct (split (d :: s)); discriminate.
Qed.

(** Splitting distributes over a cut that follows whitespace. *)
Lemma split_app (x z : str) :
  ends_blank x -> split (x ++ z) = split x ++ split z.
Proof.
  induction x as [|c x IH]; intros Hx; [reflexivity|].
  destruct (isspace c) eqn:Hc.
  - change ((c :: x) ++ z) with (c :: x ++ z).
    rewrite !split_cons_space by assumption.
    destruct x as [|d x]; [reflexivity|].
    apply IH. eapply ends_blank_tail; eauto. discriminate.
  - destruct x as [|d x].
    + apply ends_blank_single in Hx. congruence.
    + assert (Hx' : ends_blank (d :: x))
        by (eapply ends_blank_tail; eauto; discriminate).
      specialize (IH Hx').
      change ((c :: d :: x) ++ z) with (c :: d :: x ++ z).
      change ((d :: x) ++ z) with (d :: x ++ z) in IH.
      destruct (isspace d) eqn:Hd.
      * rewrite !split_cons_word_space by assumption. now rewrite IH.
      * rewrite !split_cons_word_word by assumption. rewrite IH.
        pose proof (split_head_nonspace d x Hd) as Hne.
        destruct (split (d :: x)) as [|w0 ws0]; [congruence|]. reflexivity.
Qed.

(** A word in front of whitespace is the first word. *)
Lemma split_word (w y : str) :
  is_word_str w -> starts_blank y -> split (w ++ y) = w :: split y.
Proof.
  intros [Hne Hw] Hy. induction w as [|c w IH]; [congruence|].
  inversion Hw as [|? ? Hc Hw']; subst.
  destruct w as [|d w].
  - destruct Hy as [->|(e & y' & -> & He)].
    + cbn [app]. now rewrite split_single.
    + change ([c] ++ e :: y') with (c :: e :: y').
      now rewrite split_cons_word_space.
  - assert (Hd : isspace d = false) by now inversion Hw'.
    specialize (IH ltac:(discriminate) Hw').
    change ((c :: d :: w) ++ y) with (c :: d :: w ++ y).
    change ((d :: w) ++ y) with (d :: w ++ y) in IH.
    rewrite split_cons_word_word by assumption. now rewrite IH.
Qed.

(** A word between whitespace is one of the words of the text. *)
Lemma split_middle (x w y : str) :
  ends_blank x -> is_word_str w -> starts_blank y ->
  In w (split (x ++ w ++ y)).
Proof.
  intros Hx Hw Hy. rewrite split_app, split_word by assumption.
  apply in_or_app. right. now left.
Qed.

(** The pieces [split] returns are words. *)
Lemma split_words (s : str) : Forall is_word_str (split s).
Proof.
  induction s as [|c s IH]; [constructor|].
  destruct (isspace c) eqn:Hc; [now rewrite split_cons_space|].
  assert (Hone : is_word_str [c]).
  { split; [discriminate|]. now constructor. }
  destruct s as [|d s]; [rewrite split_single by assumption; now constructor|].
  destruct (isspace d) eqn:Hd.
  - rewrite split_cons_word_space by assumption. now constructor.
  - rewrite split_cons_word_word by assumption.
    destruct (split (d :: s)) as [|w0 ws0]; [now constructor|].
    inversion IH as [|? ? [Hw0 Hall] Hws0]; subst.
    constructor; [|assumption].
    split; [discriminate|]. now constructor.
Qed.

Lemma is_ws_isspace (c : ascii) : is_ws c = true -> isspace c = true.
Proof.
  unfold is_ws, isspace, in_range.
  destruct ((9 <=? ord c)%N && (ord c <=? 13)%N); [reflexivity|].
  cbn [orb].
  destruct (N.leb_spec 32 (ord c)), (N.leb_spec (ord c) 32); try discriminate.
  intros _.
  destruct (N.leb_spec 28 (ord c)); [|lia]. reflexivity.
Qed.

End SplitFacts.

Module ChunkFacts.
Import Analysis PyStr TextWrap PyStrFacts TextWrapFacts SplitFacts.

(** ** The collapsed text passes [_munge_whitespace] unchanged *)

Lemma join_cons (sep p : str) (ps : list str) :
  ps <> [] -> join sep (p :: ps) = p ++ sep ++ join sep ps.
Proof. destruct ps; [congruence|reflexivity]. Qed.

Lemma join_collapsed (ws : list str) :
  Forall is_word_str ws -> Forall collapsed_char (join [SPACE] ws).
Proof.
  induction 1 as [|w ws [_ Hw] Hws IH]; [constructor|].
  assert (Hcw : Forall collapsed_char w).
  { eapply Forall_impl; [|exact Hw]. intros c Hc. now right. }
  destruct ws as [|w' ws]; [exact Hcw|].
  rewrite join_cons by discriminate.
  apply Forall_app; split; [assumption|].
  apply Forall_app; split; [|assumption].
  constructor; [now left|constructor].
Qed.

Lemma collapsed_not_ws (c : ascii) :
  collapsed_char c -> (if is_ws c then SPACE else c) = c.
Proof.
  intros [->|H]; [reflexivity|].
  destruct (is_ws c) eqn:E; [|reflexivity].
  apply is_ws_isspace in E. congruence.
Qed.

Lemma collapsed_not (c d : ascii) :
  collapsed_char c -> isspace d = true -> d <> SPACE -> Ascii.eqb c d = false.
Proof.
  intros [->|H] Hd Hne; apply Ascii.eqb_neq; congruence.
Qed.

Lemma replace_collapsed (d : ascii) (s : str) :
  isspace d = true -> d <> SPACE ->
  Forall collapsed_char s -> replace d SPACE s = s.
Proof.
  intros Hd Hne. induction 1 as [|c s Hc Hs IH]; [reflexivity|].
  unfold replace in *. cbn [map]. rewrite IH.
  now rewrite (collapsed_not c d).
Qed.

Lemma expandtabs_collapsed (col : Z) (s : str) :
  Forall collapsed_char s -> expandtabs_from 8 col s = s.
Proof.
  intros H. revert col. induction H as [|c s Hc Hs IH]; intros col; [reflexivity|].
  cbn [expandtabs_from].
  rewrite (collapsed_not c TAB Hc)
    by (reflexivity || (intros E; vm_compute in E; discriminate)).
  destruct (_ || _); now rewrite IH.
Qed.

Lemma munge_collapsed (s : str) :
  Forall collapsed_char s ->
  _munge_whitespace (replace TAB SPACE (replace NEWLINE SPACE s)) = s.
Proof.
  intros H.
  rewrite (replace_collapsed NEWLINE s), (replace_collapsed TAB s);
    try assumption; try reflexivity; try (intros E; vm_compute in E; discriminate).
  unfold _munge_whitespace, expandtabs. rewrite expandtabs_collapsed by assumption.
  induction H as [|c s Hc Hs IH]; [reflexivity|].
  cbn [map]. now rewrite IH, collapsed_not_ws.
Qed.

(** ** The chunks of a text *)

Lemma re_split_fuel (f1 f2 : nat) (before after pending : str) :
  (List.length after <= f1)%nat -> (List.length after <= f2)%nat ->
  re_split f1 before after pending = re_split f2 before after pending.
Proof.
  revert f2 before after pending.
  induction f1 as [|f1 IH]; intros f2 before after pending H1 H2.
  - destruct after; [now destruct f2|simpl in H1; lia].
  - destruct after as [|c after]; [now destruct f2|].
    destruct f2 as [|f2]; [simpl in H2; lia|].
    cbn [re_split].
    destruct (wordsep_match before (c :: after)) as [n|] eqn:E.
    + apply wordsep_match_bounds in E.
      rewrite (IH f2); [reflexivity| |]; rewrite length_skipn; lia.
    + apply IH; simpl in *; lia.
Qed.

Lemma _split_chunks_of (text : str) : _split text = Some (chunks_of [] text).
Proof.
  unfold _split, chunks_of.
  now destruct (re_split_total (List.length text) [] text [] (le_n _)) as [p ->].
Qed.

Lemma chunks_of_nil (before : str) : chunks_of before [] = [].
Proof. reflexivity. Qed.

Lemma chunks_of_step (before after : str) (n : nat) :
  after <> [] ->
  wordsep_match before after = Some n ->
  chunks_of before after
  = firstn n after :: chunks_of (rev (firstn n after) ++ before) (skipn n after).
Proof.
  intros Hne Hm. pose proof (wordsep_match_bounds _ _ _ Hm) as Hn.
  destruct after as [|c after]; [congruence|].
  unfold chunks_of. cbn [List.length re_split]. rewrite Hm.
  rewrite (re_split_fuel (List.length after)
             (List.length (skipn n (c :: after))))
    by (rewrite ?length_skipn; cbn [List.length] in *; lia).
  destruct (re_split_total (List.length (skipn n (c :: after)))
              (rev (firstn n (c :: after)) ++ before)
              (skipn n (c :: after)) [] (le_n _)) as [pieces ->].
  cbn [rev filter nonempty].
  destruct n as [|n]; [lia|]. reflexivity.
Qed.

(** ** Chunks and words *)

Lemma is_ws_not_hyphen (c : ascii) : is_ws c = true -> is_hyphen c = false.
Proof.
  unfold is_hyphen. intros H. apply Ascii.eqb_neq. intros ->. discriminate.
Qed.

Lemma hyphen_break_word_end (before tail : str) :
  word_end tail -> hyphen_break before tail = false.
Proof.
  intros [->|(s & t & -> & Hs)]; [reflexivity|].
  cbn [hyphen_break]. now rewrite (is_ws_not_hyphen s Hs).
Qed.

Lemma end_of_word_word_end (tail : str) : word_end tail -> end_of_word tail = true.
Proof. intros [->|(s & t & -> & Hs)]; [reflexivity|exact Hs]. Qed.

Lemma run_length_solid (p : ascii -> bool) (u tail : str) :
  (forall c, is_ws c = true -> p c = false) ->
  word_end tail ->
  (run_length p (u ++ tail) <= List.length u)%nat.
Proof.
  intros Hp Htail. induction u as [|c u IH]; cbn [app run_length List.length].
  - destruct Htail as [->|(s & t & -> & Hs)]; [simpl; lia|].
    cbn [run_length]. rewrite (Hp s Hs). lia.
  - destruct (p c); lia.
Qed.

Lemma word_tail_in_word (u tail before : str) (n m : nat) :
  solid u -> word_end tail ->
  word_tail before (u ++ tail) n = Some m -> (m <= n + List.length u)%nat.
Proof.
  intros Hu Htail. revert before n.
  induction Hu as [|c u Hc Hu IH]; intros before n.
  - cbn [app]. destruct tail as [|s t].
    + cbn [word_tail]. rewrite hyphen_break_word_end by assumption.
      cbn [end_of_word]. intros [= <-]. simpl. lia.
    + cbn [word_tail]. rewrite hyphen_break_word_end by assumption.
      rewrite (end_of_word_word_end (s :: t)) by assumption.
      intros [= <-]. simpl. lia.
  - cbn [app word_tail List.length].
    destruct (hyphen_break before (c :: u ++ tail)); [intros [= <-]; lia|].
    cbn [end_of_word]. rewrite Hc.
    destruct (em_dash_ahead before (c :: u ++ tail)); [intros [= <-]; lia|].
    intros H%IH. lia.
Qed.

(** A match that starts inside a word ends inside it. *)
Lemma match_in_word (u tail before : str) (n : nat) :
  u <> [] -> solid u -> word_end tail ->
  wordsep_match before (u ++ tail) = Some n -> (n <= List.length u)%nat.
Proof.
  intros Hne Hu Htail. unfold wordsep_match.
  destruct u as [|c u]; [congruence|].
  inversion Hu as [|? ? Hc Hu']; subst.
  unfold alt_whitespace. cbn [app run_length]. rewrite Hc.
  destruct (alt_em_dash before (c :: u ++ tail)) as [k|] eqn:E2.
  { intros [= <-]. unfold alt_em_dash in E2.
    destruct before as [|b ?]; [discriminate|].
    destruct (is_word_punct b); [|discriminate].
    unfold dashes_then_word in E2.
    pose proof (run_length_solid is_hyphen (c :: u) tail
                  is_ws_not_hyphen Htail) as Hrun.
    destruct (2 <=? _)%nat; [|discriminate].
    destruct (skipn _ _) as [|d ?]; [discriminate|].
    destruct (is_word d); [|discriminate].
    injection E2 as <-. exact Hrun. }
  unfold alt_word. rewrite Hc.
  intros H%(word_tail_in_word u tail); auto.
Qed.

(** A word without a hyphen is matched whole. *)
Lemma word_tail_whole (u tail before : str) (n : nat) :
  solid u -> Forall (fun c => is_hyphen c = false) u -> word_end tail ->
  word_tail before (u ++ tail) n = Some (n + List.length u)%nat.
Proof.
  intros Hu Hh Htail. revert before n Hh.
  induction Hu as [|c u Hc Hu IH]; intros before n Hh.
  - cbn [app List.length]. rewrite Nat.add_0_r.
    destruct tail as [|s t]; cbn [word_tail];
      rewrite hyphen_break_word_end by assumption;
      [reflexivity|].
    now rewrite (end_of_word_word_end (s :: t)).
  - inversion Hh as [|? ? Hhc Hh']; subst.
    cbn [app word_tail List.length].
    assert (E1 : hyphen_break before (c :: u ++ tail) = false).
    { cbn [hyphen_break]. now rewrite Hhc. }
    assert (E2 : em_dash_ahead before (c :: u ++ tail) = false).
    { unfold em_dash_ahead, dashes_then_word. cbn [run_length].
      rewrite Hhc. cbn. destruct before; [reflexivity|apply andb_false_r]. }
    rewrite E1, E2. cbn [end_of_word]. rewrite Hc.
    rewrite IH by assumption. f_equal. lia.
Qed.

Lemma match_whole_word (u tail before : str) :
  u <> [] -> solid u -> Forall (fun c => is_hyphen c = false) u ->
  word_end tail ->
  wordsep_match before (u ++ tail) = Some (List.length u).
Proof.
  intros Hne Hu Hh Htail.
  destruct u as [|c u]; [congruence|].
  inversion Hu as [|? ? Hc Hu']; subst.
  inversion Hh as [|? ? Hhc Hh']; subst.
  unfold wordsep_match, alt_whitespace. cbn [app run_length]. rewrite Hc.
  assert (E : alt_em_dash before (c :: u ++ tail) = None).
  { unfold alt_em_dash, dashes_then_word. cbn [run_length]. rewrite Hhc. cbn.
    destruct before as [|b ?]; [reflexivity|]. now destruct (is_word_punct b). }
  rewrite E. unfold alt_word. rewrite Hc.
  now rewrite word_tail_whole.
Qed.

(** The chunks of a word end where the word ends. *)
Lemma chunks_word (u tail before : str) :
  u <> [] -> solid u -> word_end tail ->
  exists g, chunks_of before (u ++ tail) = g ++ chunks_of (rev u ++ before) tail.
Proof.
  remember (List.length u) as k eqn:Hk.
  revert u before Hk.
  induction k as [k IH] using lt_wf_ind; intros u before Hk Hne Hu Htail.
  destruct u as [|c u']; [congruence|]. set (u := c :: u') in *.
  destruct (wordsep_match_some before c (u' ++ tail)) as [n Hm].
  change (c :: u' ++ tail) with (u ++ tail) in Hm.
  pose proof (wordsep_match_bounds _ _ _ Hm) as [Hn1 _].
  pose proof (match_in_word u tail before n Hne Hu Htail Hm) as Hn2.
  rewrite (chunks_of_step before (u ++ tail) n) by (discriminate || assumption).
  rewrite firstn_app, skipn_app.
  replace (n - List.length u)%nat with O by lia.
  cbn [firstn skipn]. rewrite app_nil_r.
  destruct (skipn n u) as [|d r] eqn:Hskip.
  - assert (Hfull : firstn n u = u).
    { rewrite <- (firstn_skipn n u) at 2. rewrite Hskip. now rewrite app_nil_r. }
    rewrite Hfull. cbn [app]. now exists [u].
  - assert (Hlen : (List.length (skipn n u) < k)%nat)
      by (rewrite length_skipn; lia).
    assert (Hsolid : solid (skipn n u)).
    { unfold solid in *. rewrite <- (firstn_skipn n u) in Hu.
      now apply Forall_app in Hu as [_ ?]. }
    rewrite Hskip in Hlen, Hsolid.
    destruct (IH _ Hlen (d :: r) (rev (firstn n u) ++ before) eq_refl
                ltac:(discriminate) Hsolid Htail) as [g Hg].
    rewrite Hg. exists (firstn n u :: g).
    rewrite <- Hskip, app_assoc, <- rev_app_distr, firstn_skipn. reflexivity.
Qed.

Lemma chunks_word_whole (u tail before : str) :
  u <> [] -> solid u -> Forall (fun c => is_hyphen c = false) u ->
  word_end tail ->
  chunks_of before (u ++ tail) = u :: chunks_of (rev u ++ before) tail.
Proof.
  intros Hne Hu Hh Htail.
  rewrite (chunks_of_step before (u ++ tail) (List.length u)).
  - rewrite firstn_app, skipn_app, Nat.sub_diag, firstn_all, skipn_all.
    cbn [firstn skipn app]. now rewrite app_nil_r.
  - destruct u; [congruence|discriminate].
  - now apply match_whole_word.
Qed.

(** A single space between two words is a chunk. *)
Lemma chunks_space (before v : str) :
  match v with c :: _ => is_ws c = false | [] => True end ->
  chunks_of before (SPACE :: v) = [SPACE] :: chunks_of (SPACE :: before) v.
Proof.
  intros Hv.
  rewrite (chunks_of_step before (SPACE :: v) 1); [reflexivity|discriminate|].
  unfold wordsep_match, alt_whitespace. cbn [run_length].
  change (is_ws SPACE) with true. cbv iota.
  destruct v as [|c v]; [reflexivity|]. cbn [run_length]. now rewrite Hv.
Qed.

End ChunkFacts.

Module IsolationFacts.
Import Analysis PyStr TextWrap PyStrFacts TextWrapFacts SplitFacts ChunkFacts.

Lemma blank_space : blank [SPACE].
Proof. split; [discriminate|reflexivity]. Qed.

Lemma word_solid (w : str) : is_word_str w -> solid w.
Proof.
  intros [_ Hw]. eapply Forall_impl; [|exact Hw].
  intros c Hc. destruct (is_ws c) eqn:E; [|reflexivity].
  apply is_ws_isspace in E. congruence.
Qed.

Lemma no_hyphen (w : str) :
  ~ In HYPHEN w -> Forall (fun c => is_hyphen c = false) w.
Proof.
  intros H. apply Forall_forall. intros c Hc.
  unfold is_hyphen. apply Ascii.eqb_neq. intros ->. contradiction.
Qed.

Lemma join_head (w : str) (ws : list str) :
  Forall is_word_str (w :: ws) ->
  match join [SPACE] (w :: ws) with
  | c :: _ => is_ws c = false
  | [] => True
  end.
Proof.
  intros H. inversion H as [|? ? Hw Hws]; subst.
  pose proof (word_solid w Hw) as Hs. destruct Hw as [Hne _].
  destruct w as [|c w]; [congruence|].
  inversion Hs; subst.
  destruct ws; [assumption|]. rewrite join_cons by discriminate. assumption.
Qed.

Lemma word_end_space (v : str) : word_end (SPACE :: v).
Proof. right. now exists SPACE, v. Qed.

(** In the chunks of the collapsed text, a word without a hyphen is a
    chunk of its own between the two spaces around it. *)
Lemma chunks_join_isolated (ws1 : list str) (w : str) (ws2 : list str)
    (before : str) :
  Forall is_word_str (ws1 ++ w :: ws2) ->
  ~ In HYPHEN w ->
  isolated w (chunks_of before (join [SPACE] (ws1 ++ w :: ws2))).
Proof.
  intros Hall Hh. revert before.
  induction ws1 as [|u ws1 IH]; intros before.
  - cbn [app] in *. inversion Hall as [|? ? Hw Hws2]; subst.
    pose proof (word_solid w Hw) as Hs. pose proof (no_hyphen w Hh) as Hnh.
    destruct Hw as [Hne _].
    exists []. destruct ws2 as [|u ws2].
    + cbn [join].
      replace (chunks_of before w) with (chunks_of before (w ++ []))
        by now rewrite app_nil_r.
      rewrite chunks_word_whole by (auto; now left).
      rewrite chunks_of_nil. exists []. repeat split; now left.
    + rewrite join_cons by discriminate. cbn [app].
      rewrite chunks_word_whole by (auto using word_end_space).
      rewrite chunks_space by (apply join_head; assumption).
      eexists. split; [reflexivity|]. split; [now left|].
      right. do 2 eexists. split; [reflexivity|apply blank_space].
  - cbn [app] in *. inversion Hall as [|? ? Hu Hrest]; subst.
    pose proof (word_solid u Hu) as Hs. destruct Hu as [Hne _].
    assert (Hnonnil : ws1 ++ w :: ws2 <> []) by (destruct ws1; discriminate).
    rewrite join_cons by assumption. cbn [app].
    destruct (chunks_word u (SPACE :: join [SPACE] (ws1 ++ w :: ws2)) before
                Hne Hs (word_end_space _)) as [g ->].
    rewrite chunks_space.
    2:{ destruct (ws1 ++ w :: ws2) as [|x xs] eqn:E; [congruence|].
        now apply join_head. }
    destruct (IH Hrest (SPACE :: rev u ++ before))
      as (pre & post & -> & Hpre & Hpost).
    exists (g ++ [SPACE] :: pre), post.
    split; [now rewrite <- app_assoc|]. split; [|assumption].
    right. destruct Hpre as [->|(p & s & -> & Hb)].
    + exists g, [SPACE]. split; [reflexivity|apply blank_space].
    + exists (g ++ [SPACE] :: p), s. split; [|assumption].
      now rewrite <- app_assoc.
Qed.

End IsolationFacts.

Module KeepFacts.
Import Analysis PyStr TextWrap PyStrFacts TextWrapFacts WrapFacts LoopFacts.
Import SplitFacts ChunkFacts IsolationFacts.

(** ** Whitespace chunks *)

Lemma word_not_blank (w : str) : is_word_str w -> strip_is_empty w = false.
Proof.
  intros [Hne Hw]. destruct w as [|c w]; [congruence|].
  inversion Hw as [|? ? Hc _]; subst. cbn. now rewrite Hc.
Qed.

Lemma blank_ends (s : str) : blank s -> ends_blank s.
Proof.
  intros [Hne Hs]. right.
  destruct s as [|c s] using rev_ind; [congruence|].
  exists s, c. split; [reflexivity|].
  unfold strip_is_empty in Hs. rewrite forallb_app in Hs.
  apply andb_prop in Hs as [_ Hc]. cbn in Hc. now rewrite andb_true_r in Hc.
Qed.

Lemma blank_starts (s : str) : blank s -> starts_blank s.
Proof.
  intros [Hne Hs]. right. destruct s as [|c s]; [congruence|].
  exists c, s. split; [reflexivity|].
  cbn in Hs. now apply andb_prop in Hs as [Hc _].
Qed.

Lemma blank_end_concat (pre : list str) :
  blank_end pre -> ends_blank (List.concat pre).
Proof.
  intros [->|(p & s & -> & Hb)]; [now left|].
  rewrite concat_app. cbn [List.concat]. rewrite app_nil_r.
  destruct (blank_ends s Hb) as [->|(s' & c & -> & Hc)].
  - destruct Hb; congruence.
  - right. exists (List.concat p ++ s'), c. now rewrite app_assoc.
Qed.

Lemma blank_start_concat (post : list str) :
  blank_start post -> starts_blank (List.concat post).
Proof.
  intros [->|(s & p & -> & Hb)]; [now left|].
  cbn [List.concat].
  destruct (blank_starts s Hb) as [->|(c & s' & -> & Hc)].
  - destruct Hb; congruence.
  - right. exists c, (s' ++ List.concat p). now split.
Qed.

Lemma blank_end_app_r (a l : list str) : blank_end (a ++ l) -> blank_end l.
Proof.
  intros [H|(p & s & H & Hb)].
  - apply app_eq_nil in H as [_ ->]. now left.
  - destruct l as [|x l] using rev_ind; [now left|].
    rewrite app_assoc in H. apply app_inj_tail in H as [_ ->].
    right. eauto.
Qed.

Lemma blank_end_last (a : list str) (c : str) : blank_end (a ++ [c]) -> blank c.
Proof.
  intros [H|(p & s & H & Hb)].
  - now apply app_eq_nil in H as [_ ?].
  - now apply app_inj_tail in H as [_ ->].
Qed.

Lemma blank_start_app (t2 rest : list str) :
  blank_start (t2 ++ rest) -> t2 <> [] -> blank_start t2.
Proof.
  intros [H|(s & p & H & Hb)] Hne.
  - apply app_eq_nil in H as [-> _]. now left.
  - destruct t2 as [|x t2]; [congruence|].
    injection H as -> _. right. eauto.
Qed.

Lemma in_firstn (n : nat) (l : str) (x : ascii) : In x (firstn n l) -> In x l.
Proof. intros H. rewrite <- (firstn_skipn n l). apply in_or_app. now left. Qed.

Lemma in_skipn (n : nat) (l : str) (x : ascii) : In x (skipn n l) -> In x l.
Proof. intros H. rewrite <- (firstn_skipn n l). apply in_or_app. now right. Qed.

Lemma strip_is_empty_slice_to (c : str) (k : Z) :
  strip_is_empty c = true -> strip_is_empty (slice_to c k) = true.
Proof.
  unfold strip_is_empty, slice_to. rewrite !forallb_forall.
  intros H x Hx. apply H. eapply in_firstn; eauto.
Qed.

Lemma blank_slice_from (c : str) (k : Z) :
  blank c -> 0 <= k < len c -> blank (slice_from c k).
Proof.
  intros [Hne Hc] Hk. split.
  - intros E. apply (f_equal (@List.length ascii)) in E.
    unfold slice_from in E. rewrite length_skipn in E.
    unfold clip, len in *. destruct (Z.ltb_spec k 0); simpl in E; lia.
  - unfold strip_is_empty, slice_from in *. rewrite !forallb_forall in *.
    intros x Hx. apply Hc. eapply in_skipn; eauto.
Qed.

(** ** The line that holds the word *)

Lemma drop_trailing_snoc (x : list str) (c : str) :
  drop_trailing (x ++ [c]) = if strip_is_empty c then x else x ++ [c].
Proof.
  unfold drop_trailing. rewrite rev_app_distr. cbn [rev app].
  now rewrite removelast_last.
Qed.

(** Dropping the whitespace at the end of a line keeps the word and what
    stands right after it. *)
Lemma drop_trailing_keeps (pre : list str) (w : str) (t2 : list str) :
  strip_is_empty w = false ->
  blank_start t2 ->
  exists t2', drop_trailing (pre ++ w :: t2) = pre ++ w :: t2'
              /\ blank_start t2'.
Proof.
  intros Hw Ht2. destruct t2 as [|c t] using rev_ind.
  - exists []. split; [|now left].
    rewrite drop_trailing_snoc.
    now rewrite Hw.
  - clear IHt.
    replace (pre ++ w :: t ++ [c]) with ((pre ++ w :: t) ++ [c])
      by now rewrite <- app_assoc.
    rewrite drop_trailing_snoc. destruct (strip_is_empty c).
    + exists t. split; [reflexivity|].
      destruct t as [|x t]; [now left|].
      apply (blank_start_app (x :: t) [c]); [assumption|discriminate].
    + exists (t ++ [c]). split; [now rewrite <- app_assoc|assumption].
Qed.

Lemma line_has_word (pre : list str) (w : str) (t2 : list str) :
  is_word_str w -> blank_end pre -> blank_start t2 ->
  exists l, finish (pre ++ w :: t2) = Some l /\ In w (split l).
Proof.
  intros Hw Hpre Ht2. exists (List.concat (pre ++ w :: t2)). split.
  - destruct pre; reflexivity.
  - rewrite concat_app. cbn [List.concat].
    apply split_middle; auto using blank_end_concat, blank_start_concat.
Qed.

(** ** One pass keeps the word whole *)

Lemma drop_leading_isolated (w : str) (chunks lines : list str) :
  is_word_str w -> isolated w chunks -> isolated w (drop_leading chunks lines).
Proof.
  intros Hw (pre & post & -> & Hpre & Hpost). unfold drop_leading.
  destruct pre as [|p0 pre]; cbn [app].
  - rewrite word_not_blank by assumption. cbn [andb].
    exists [], post. now repeat split.
  - destruct (_ && _).
    + exists pre, post. repeat split; auto.
      now apply (blank_end_app_r [p0] pre).
    + exists (p0 :: pre), post. now repeat split.
Qed.

Section Pass.
Variables (width : Z) (w : str).
Hypothesis Hwidth : 1 <= width.
Hypothesis Hword : is_word_str w.
Hypothesis Hfits : len w <= width.

Lemma pass_keeps (chunks lines : list str) (line : option str)
    (rest : list str) :
  pass width chunks lines line rest ->
  isolated w chunks ->
  isolated w rest \/ exists l, line = Some l /\ In w (split l).
Proof.
  intros Hpass Hiso.
  apply (drop_leading_isolated w chunks lines Hword) in Hiso
    as (pre & post & Heq & Hpre & Hpost).
  destruct Hpass as [taken rest Hsplit Hle Hrest|taken c rest Hsplit Hle Hlong];
    rewrite Heq in Hsplit; apply app_eq_app in Hsplit as [l Hcases].
  - destruct Hcases as [[-> ->]|[-> Hl]].
    + left. exists l, post. repeat split; auto.
      now apply (blank_end_app_r taken l).
    + destruct l as [|x t2]; cbn [app] in Hl.
      * left. subst rest. exists [], post. repeat split; auto. now left.
      * injection Hl as <- ->. right.
        assert (Ht2 : blank_start t2).
        { destruct t2; [now left|].
          eapply blank_start_app; eauto. discriminate. }
        destruct (drop_trailing_keeps pre w t2 (word_not_blank w Hword) Ht2)
          as (t2' & -> & Ht2').
        now apply line_has_word.
  - destruct Hcases as [[-> Hl]|[-> Hl]].
    + destruct l as [|x l']; cbn [app] in Hl.
      * injection Hl as -> _. lia.
      * injection Hl as <- ->. left.
        exists (slice_from c (cut_point c (chars taken) width) :: l'), post.
        split; [reflexivity|]. split; [|assumption].
        destruct l' as [|y l'] using rev_ind.
        -- right. exists [], (slice_from c (cut_point c (chars taken) width)).
           split; [reflexivity|].
           apply blank_slice_from.
           ++ now apply (blank_end_last taken c).
           ++ pose proof (cut_point_bounds c (chars taken) width Hwidth Hle).
              pose proof (chars_nonneg taken). lia.
        -- right. exists (slice_from c (cut_point c (chars taken) width) :: l'), y.
           split; [reflexivity|].
           apply (blank_end_last (taken ++ c :: l') y).
           now rewrite <- app_assoc.
    + destruct l as [|x t2]; cbn [app] in Hl.
      * injection Hl as <- _. lia.
      * injection Hl as <- ->. right.
        set (piece := slice_to c (cut_point c (chars (pre ++ w :: t2)) width)).
        rewrite drop_trailing_snoc.
        assert (Hpiece : t2 = [] -> strip_is_empty piece = true).
        { intros ->. cbn [app] in Hpost.
          destruct Hpost as [|(s & p & [= <- <-] & [_ Hb])]; [discriminate|].
          now apply strip_is_empty_slice_to. }
        assert (Ht2 : blank_start t2).
        { destruct t2; [now left|].
          eapply blank_start_app; eauto. discriminate. }
        destruct (strip_is_empty piece) eqn:Ep.
        -- now apply line_has_word.
        -- replace ((pre ++ w :: t2) ++ [piece])
             with (pre ++ w :: (t2 ++ [piece])) by now rewrite <- app_assoc.
           apply line_has_word; auto.
           destruct t2 as [|s p]; [now specialize (Hpiece eq_refl)|].
           destruct Ht2 as [|(s' & p' & [= <- <-] & Hb)]; [discriminate|].
           right. now exists s, (p ++ [piece]).
Qed.

End Pass.

End KeepFacts.

Module FormatFacts.
Import Analysis PyStr TextWrap Flashcards Spec PyStrFacts TextWrapFacts WrapFacts LoopFacts.
Import SplitFacts ChunkFacts IsolationFacts KeepFacts.

(** ** The loop keeps the word whole *)

Lemma wrap_loop_extends (width : Z) (fuel : nat) (chunks lines out : list str) :
  wrap_loop fuel width chunks lines = Some out ->
  exists more, out = lines ++ more.
Proof.
  revert chunks lines. induction fuel as [|fuel IH]; intros chunks lines.
  - destruct chunks; simpl; [|discriminate].
    intros [= <-]. exists []. now rewrite app_nil_r.
  - destruct chunks as [|c chunks].
    + simpl. intros [= <-]. exists []. now rewrite app_nil_r.
    + cbn [wrap_loop]. destruct (wrap_line width (c :: chunks) lines) as [line rest].
      intros (more & ->)%IH. destruct line as [l|]; [|eauto].
      exists (l :: more). now rewrite <- app_assoc.
Qed.

Lemma isolated_cons (w : str) (chunks : list str) :
  isolated w chunks -> exists c rest, chunks = c :: rest.
Proof.
  intros (pre & post & -> & _). destruct pre; cbn [app]; eauto.
Qed.

Lemma wrap_loop_keeps (width : Z) (w : str) (fuel : nat)
    (chunks lines out : list str) :
  1 <= width -> is_word_str w -> len w <= width ->
  isolated w chunks ->
  wrap_loop fuel width chunks lines = Some out ->
  kept_whole w out.
Proof.
  intros Hwidth Hword Hfits. revert chunks lines.
  induction fuel as [|fuel IH]; intros chunks lines Hiso;
    destruct (isolated_cons w chunks Hiso) as (c & rest0 & ->);
    [discriminate|].
  cbn [wrap_loop].
  pose proof (wrap_line_pass width (c :: rest0) lines ltac:(lia)) as Hpass.
  destruct (wrap_line width (c :: rest0) lines) as [line rest].
  cbn [fst snd] in Hpass.
  destruct (pass_keeps width w Hwidth Hword Hfits _ _ _ _ Hpass Hiso)
    as [Hrest|(l & -> & Hl)].
  - now apply IH.
  - intros (more & ->)%wrap_loop_extends.
    exists l. split; [|assumption].
    apply in_or_app. left. apply in_or_app. right. now left.
Qed.

(** ** [format_data] *)

Lemma split_join (ws : list str) :
  Forall is_word_str ws -> split (join [SPACE] ws) = ws.
Proof.
  induction 1 as [|w ws Hw Hws IH]; [reflexivity|].
  destruct ws as [|w' ws].
  - cbn [join]. rewrite <- (app_nil_r w) at 1.
    now rewrite split_word by (auto; now left).
  - rewrite join_cons by discriminate.
    rewrite split_word; [|assumption|right; now exists SPACE, (join [SPACE] (w' :: ws))].
    cbn [app]. rewrite split_cons_space by reflexivity. now rewrite IH.
Qed.

Lemma words_split (text : str) : words text = split text.
Proof. apply split_join, split_words. Qed.

(** What [format_data] hands to [_wrap_chunks]. *)
Lemma format_data_chunks (text : str) (max_length : Z) :
  format_data text max_length
  = _wrap_chunks (max_length - 5) (chunks_of [] (collapse text)).
Proof.
  unfold format_data, wrap, _split_chunks. fold (collapse text).
  rewrite munge_collapsed by (apply join_collapsed, split_words).
  now rewrite _split_chunks_of.
Qed.

Lemma format_data_total (text : str) (max_length : Z) :
  5 < max_length -> exists lines, format_data text max_length = Ok lines.
Proof. intros H. rewrite format_data_chunks. apply wrap_chunks_total. lia. Qed.

Lemma format_data_invalid_width (text : str) (max_length : Z) :
  max_length <= 5 -> format_data text max_length = Raise ValueError.
Proof.
  intros H. rewrite format_data_chunks. apply wrap_chunks_invalid_width. lia.
Qed.

Lemma format_data_width (text : str) (max_length : Z) (lines : list str) :
  format_data text max_length = Ok lines ->
  Forall (fun l => len l <= max_length - 5) lines.
Proof. rewrite format_data_chunks. apply wrap_chunks_width. Qed.

Lemma format_data_empty (text : str) (max_length : Z) :
  5 < max_length -> collapse text = [] -> format_data text max_length = Ok [].
Proof.
  intros H E. rewrite format_data_chunks, E. unfold _wrap_chunks.
  destruct (Z.leb_spec (max_length - 5) 0); [lia|reflexivity].
Qed.

End FormatFacts.

Module FrameFacts.
Import Analysis PyStr Flashcards Spec PyStrFacts.

(** ** Length of a framed line *)

Lemma style_on_line_length (line : str) (max_length : Z) (border : ascii) :
  len (style_on_line line max_length border) = Z.max (len line) max_length.
Proof. unfold style_on_line. rewrite !center_length. lia. Qed.

(** ** Stripping *)

Lemma lstrip_repeat (c : ascii) (n : nat) (m : str) :
  lstrip c (repeat c n ++ m) = lstrip c m.
Proof.
  induction n as [|n IH]; [reflexivity|].
  cbn [repeat app lstrip]. now rewrite Ascii.eqb_refl.
Qed.

Lemma lstrip_id (c : ascii) (m : str) : not_first c m -> lstrip c m = m.
Proof.
  destruct m as [|d m]; [reflexivity|]. cbn. intros H.
  now apply Ascii.eqb_neq in H as ->.
Qed.

Lemma rev_repeat (c : ascii) (n : nat) : rev (repeat c n) = repeat c n.
Proof.
  induction n as [|n IH]; [reflexivity|].
  cbn [repeat rev]. rewrite IH. symmetry. apply repeat_cons.
Qed.

Lemma not_first_app (c : ascii) (m t : str) :
  m <> [] -> not_first c m -> not_first c (m ++ t).
Proof. destruct m; [congruence|auto]. Qed.

(** Padding on both sides is stripped, the text between stays. *)
Lemma strip_padded (c : ascii) (a b : nat) (m : str) :
  not_first c m -> not_last c m ->
  strip c (repeat c a ++ m ++ repeat c b) = m.
Proof.
  intros Hf Hl. unfold strip, rstrip. rewrite lstrip_repeat.
  destruct m as [|d m].
  - cbn [app]. rewrite <- (app_nil_r (repeat c b)), lstrip_repeat. reflexivity.
  - rewrite (lstrip_id c ((d :: m) ++ repeat c b))
      by (apply not_first_app; [discriminate|assumption]).
    rewrite rev_app_distr, rev_repeat, lstrip_repeat.
    rewrite lstrip_id by assumption. apply rev_involutive.
Qed.

Lemma strip_id (c : ascii) (m : str) :
  not_first c m -> not_last c m -> strip c m = m.
Proof.
  intros Hf Hl. pose proof (strip_padded c 0 0 m Hf Hl) as H.
  cbn [repeat app] in H. now rewrite app_nil_r in H.
Qed.

(** Spaces around a text do not start with another character. *)
Lemma padded_not_first (b : ascii) (l r : nat) (line : str) :
  b <> SPACE -> not_first b line -> (1 <= l + r)%nat ->
  not_first b (repeat SPACE l ++ line ++ repeat SPACE r).
Proof.
  intros Hb Hline Hlr. destruct l as [|l]; [|cbn; congruence].
  cbn [repeat app]. destruct line as [|d line]; [|exact Hline].
  cbn [app]. destruct r as [|r]; [lia|cbn; congruence].
Qed.

Lemma padded_not_last (b : ascii) (l r : nat) (line : str) :
  b <> SPACE -> not_last b line -> (1 <= l + r)%nat ->
  not_last b (repeat SPACE l ++ line ++ repeat SPACE r).
Proof.
  intros Hb Hline Hlr. unfold not_last.
  rewrite !rev_app_distr, !rev_repeat, <- app_assoc.
  apply padded_not_first; auto. lia.
Qed.

(** ** Taking the frame off *)

Lemma unframe_style_on_line (line : str) (max_length : Z) (border : ascii) :
  len line < max_length - 2 ->
  not_first SPACE line -> not_last SPACE line ->
  not_first border line -> not_last border line ->
  unframe (style_on_line line max_length border) border = line.
Proof.
  intros Hlen Hfs Hls Hfb Hlb. unfold unframe, style_on_line.
  destruct (center_pads line (max_length - 2) SPACE Hlen) as (l & r & -> & Hlr).
  set (inner := repeat SPACE l ++ line ++ repeat SPACE r).
  assert (Hinner : len inner = max_length - 2).
  { unfold inner. rewrite !len_app, !len_repeat. lia. }
  rewrite (center_two inner max_length border) by lia.
  destruct (ascii_dec border SPACE) as [->|Hb].
  - change ([SPACE] ++ inner ++ [SPACE])
      with (repeat SPACE 1 ++ inner ++ repeat SPACE 1).
    unfold inner.
    replace (repeat SPACE 1 ++ (repeat SPACE l ++ line ++ repeat SPACE r)
               ++ repeat SPACE 1)
      with (repeat SPACE (1 + l) ++ line ++ repeat SPACE (r + 1))
      by (rewrite !repeat_app, <- !app_assoc; reflexivity).
    rewrite strip_padded by assumption. now apply strip_id.
  - change ([border] ++ inner ++ [border])
      with (repeat border 1 ++ inner ++ repeat border 1).
    rewrite strip_padded.
    + unfold inner. now apply strip_padded.
    + apply padded_not_first; auto. lia.
    + apply padded_not_last; auto. lia.
Qed.

End FrameFacts.

Module CardFacts.
Import Analysis PyStr Flashcards Spec PyStrFacts.

(** ** The blocks *)

Lemma get_topic_run (s : state) : get_topic s = (topic_block (fst s), s).
Proof.
  unfold get_topic, topic_block, wrapped, framed, and_then. run_method.
  destruct (format_data _ _); reflexivity.
Qed.

Lemma get_keywords_run (s : state) :
  get_keywords s = (keywords_block (fst s), s).
Proof.
  unfold get_keywords, keywords_block, wrapped, framed, and_then. run_method.
  destruct (keywords (fst s)); [|reflexivity].
  destruct (format_data _ _); reflexivity.
Qed.

Lemma max_by_test (a b : Z) : (if a >? b then a else b) = Z.max b a.
Proof. destruct (Z.gtb_spec a b); lia. Qed.

Lemma get_content_run (s : state) : get_content s = (content_block (fst s), s).
Proof.
  unfold get_content, content_block, shown_text, wrapped, framed, and_then.
  run_method.
  destruct (format_data (content (fst s)) _) as [formatted|e] eqn:E;
    [|reflexivity].
  destruct (hide_content (fst s)); run_method.
  - fold PLACEHOLDER.
    destruct (format_data PLACEHOLDER _) as [shown|e]; [|reflexivity].
    rewrite !max_by_test, <- !app_assoc. reflexivity.
  - rewrite E, !max_by_test, <- !app_assoc. reflexivity.
Qed.

(** ** The card *)

Lemma mul_char (b : ascii) (n : Z) : mul [b] n = repeat b (Z.to_nat n).
Proof.
  unfold mul. induction (Z.to_nat n) as [|k IH]; [reflexivity|].
  cbn [repeat List.concat app]. now rewrite IH.
Qed.

Lemma get_lines_to_draw_run (b : ascii) (s : state) :
  get_lines_to_draw [b] s = (render_with truthy b (fst s), s).
Proof.
  unfold get_lines_to_draw, render_with, border_line, and_then. run_method.
  rewrite get_topic_run. cbn [fst snd].
  destruct (topic_block (fst s)) as [t|e]; [|reflexivity].
  rewrite get_content_run. cbn [fst snd].
  destruct (content_block (fst s)) as [ct|e]; [|reflexivity].
  rewrite mul_char.
  destruct (truthy (keywords (fst s))); run_method.
  - rewrite get_keywords_run. cbn [fst snd].
    destruct (keywords_block (fst s)) as [kw|e]; [|reflexivity].
    rewrite <- !app_assoc. reflexivity.
  - rewrite <- !app_assoc. reflexivity.
Qed.

Lemma for_each_print (lines : list str) (fc : Flashcard) (w : world) :
  for_each lines print (fc, w)
  = (Ok tt, (fc, {| os_name := os_name w;
                    trace := trace w ++ map Print lines |})).
Proof.
  revert w. induction lines as [|l lines IH]; intros w.
  - cbn. rewrite app_nil_r. now destruct w.
  - cbn [for_each]. unfold bind, print, emit at 1. cbn [fst snd].
    rewrite IH. cbn [os_name trace map]. now rewrite <- app_assoc.
Qed.

Lemma draw_run (fc : Flashcard) (w : world) :
  draw (fc, w)
  = match render fc with
    | Ok lines =>
        (Ok tt, (with_hidden fc (negb (hide_content fc)),
                 {| os_name := os_name w;
                    trace := trace w ++ map Print lines |}))
    | Raise e => (Raise e, (fc, w))
    end.
Proof.
  unfold draw, render, bind at 1. rewrite get_lines_to_draw_run. cbn [fst snd].
  destruct (render_with truthy BORDER fc) as [lines|e]; [|reflexivity].
  unfold bind at 1. rewrite for_each_print. reflexivity.
Qed.

Lemma clean_run (fc : Flashcard) (w : world) :
  clean (fc, w)
  = (Ok tt, (fc, {| os_name := os_name w;
                    trace := trace w ++ [clear_screen (os_name w)] |})).
Proof.
  unfold clean, clear_screen, bind, get_os_name. cbn [fst snd].
  destruct (list_eq_dec ascii_dec (os_name w) (lit "posix")); reflexivity.
Qed.

End CardFacts.

Module SessionFacts.
Import Analysis PyStr Flashcards Spec PyStrFacts FormatFacts CardFacts.

(** ** A card wide enough is rendered *)

Lemma render_with_ok (include_keywords : option str -> bool) (b : ascii)
    (c : Flashcard) :
  5 < max_card_width c ->
  (include_keywords (keywords c) = true -> keywords c <> None) ->
  exists lines, render_with include_keywords b c = Ok lines.
Proof.
  intros Hw Hkw. unfold render_with, topic_block, content_block, keywords_block,
    wrapped.
  destruct (format_data_total (topic c) _ Hw) as [t ->].
  destruct (format_data_total (content c) _ Hw) as [f ->].
  destruct (format_data_total (shown_text c) _ Hw) as [sh ->].
  cbn [and_then].
  destruct (include_keywords (keywords c)); [|eauto].
  destruct (keywords c) as [kw|]; [|now specialize (Hkw eq_refl)].
  destruct (format_data_total kw _ Hw) as [k ->]. cbn [and_then]. eauto.
Qed.

Lemma render_ok (c : Flashcard) :
  5 < max_card_width c -> exists lines, render c = Ok lines.
Proof.
  intros Hw. apply render_with_ok; [assumption|].
  destruct (keywords c); [discriminate|]. discriminate.
Qed.

Lemma render_narrow (c : Flashcard) :
  max_card_width c <= 5 -> render c = Raise ValueError.
Proof.
  intros Hw. unfold render, render_with, topic_block, wrapped.
  now rewrite format_data_invalid_width.
Qed.

(** ** The two phases of a card *)

Lemma input_run (fc : Flashcard) (w : world) :
  input (fc, w)
  = (Ok tt, (fc, {| os_name := os_name w; trace := trace w ++ [Input] |})).
Proof. reflexivity. Qed.

Lemma with_hidden_same (fc : Flashcard) :
  with_hidden fc (hide_content fc) = fc.
Proof. now destruct fc. Qed.

Lemma with_hidden_twice (fc : Flashcard) (a b : bool) :
  with_hidden (with_hidden fc a) b = with_hidden fc b.
Proof. reflexivity. Qed.

(** One pass of the inner loop on a card that can be rendered. *)
Lemma phase_run (fc : Flashcard) (w : world) :
  5 < max_card_width fc ->
  bind run (fun _ => input) (fc, w)
  = (Ok tt,
     (with_hidden fc (negb (hide_content fc)),
      {| os_name := os_name w;
         trace := trace w ++ phase (os_name w) fc (hide_content fc) |})).
Proof.
  intros Hw. unfold run, bind. rewrite clean_run, draw_run.
  destruct (render_ok fc Hw) as [lines Hlines]. rewrite Hlines.
  rewrite input_run. cbn [os_name trace]. unfold phase.
  rewrite with_hidden_same, Hlines. cbn [lines_of].
  now rewrite <- !app_assoc.
Qed.

Lemma two_phases_run (fc : Flashcard) (w : world) :
  5 < max_card_width fc -> hide_content fc = true ->
  times 2 (bind run (fun _ => input)) (fc, w)
  = (Ok tt,
     (fc, {| os_name := os_name w;
             trace := trace w ++ phase (os_name w) fc true
                        ++ phase (os_name w) fc false |})).
Proof.
  intros Hw Hh.
  assert (E : with_hidden fc true = fc)
    by (rewrite <- Hh; apply with_hidden_same).
  cbn [times]. unfold bind at 1. rewrite (phase_run fc w Hw), Hh.
  unfold bind at 1. rewrite (phase_run (with_hidden fc false)) by exact Hw.
  transitivity
    (Ok tt,
     (with_hidden fc true,
      {| os_name := os_name w;
         trace := trace w ++ phase (os_name w) fc true
                    ++ phase (os_name w) fc false |})).
  - unfold ret. cbn [negb hide_content with_hidden os_name trace].
    rewrite <- app_assoc. reflexivity.
  - now rewrite E.
Qed.

(** A card narrower than six columns ends the session at its first
    draw. *)
Lemma narrow_card_run (fc : Flashcard) (w : world) :
  max_card_width fc <= 5 ->
  times 2 (bind run (fun _ => input)) (fc, w)
  = (Raise ValueError,
     (fc, {| os_name := os_name w;
             trace := trace w ++ [clear_screen (os_name w)] |})).
Proof.
  intros Hw. cbn [times]. unfold bind at 1. unfold bind at 1.
  unfold run, bind at 1. rewrite clean_run, draw_run.
  now rewrite render_narrow.
Qed.

(** ** The loop over the cards *)

Lemma for_cards_run (todo done : list Flashcard) (w : world) :
  Forall ready todo ->
  for_cards todo done w
  = (Ok tt, done ++ todo,
     {| os_name := os_name w;
        trace := trace w ++ session (os_name w) todo |}).
Proof.
  intros H. revert done w.
  induction H as [|fc todo [Hw Hh] Htodo IH]; intros done w.
  - cbn. rewrite !app_nil_r. now destruct w.
  - cbn [for_cards]. rewrite two_phases_run by assumption.
    rewrite IH. cbn [os_name trace session flat_map].
    now rewrite <- !app_assoc.
Qed.

(** ** Shuffling keeps the cards *)

Lemma set_item_Forall {A} (P : A -> Prop) (lst : list A) (i : nat) (v : A) :
  Forall P lst -> P v -> Forall P (set_item lst i v).
Proof.
  intros H Hv. revert i. induction H as [|x l Hx Hl IH]; intros i.
  - destruct i; constructor.
  - destruct i; cbn [set_item]; constructor; auto.
Qed.

Lemma swap_Forall {A} (P : A -> Prop) (x : list A) (i j : nat) :
  Forall P x -> Forall P (swap x i j).
Proof.
  intros H. unfold swap.
  destruct (nth_error x j) as [xj|] eqn:Ej; [|assumption].
  destruct (nth_error x i) as [xi|] eqn:Ei; [|assumption].
  rewrite Forall_forall in H.
  apply set_item_Forall; [apply set_item_Forall|].
  - now apply Forall_forall.
  - eapply H, nth_error_In; eauto.
  - eapply H, nth_error_In; eauto.
Qed.

Lemma shuffle_Forall {A} (randbelow : nat -> nat) (P : A -> Prop) (x : list A) :
  Forall P x -> Forall P (shuffle randbelow x).
Proof.
  unfold shuffle. generalize (List.length x - 1)%nat as i.
  intros i. revert x. induction i as [|i IH]; intros x H; [assumption|].
  cbn [shuffle_from]. apply IH. now apply swap_Forall.
Qed.

Lemma construct_ready (parsed_file : list card_data) :
  Forall (fun data => 5 < default (data_max_card_width data) MAX_WIDTH)
    parsed_file ->
  Forall ready (construct parsed_file).
Proof.
  intros H. unfold construct. apply Forall_map.
  eapply Forall_impl; [|exact H]. intros data Hd. now split.
Qed.

End SessionFacts.

Module Claims.
Import Analysis PyStr TextWrap Flashcards Spec Examples.
Import PyStrFacts SplitFacts IsolationFacts FormatFacts FrameFacts CardFacts
  SessionFacts.

(** ** Line formatter *)

(** C3, as amended: a word of the whitespace-collapsed input that has at
    most [width - 5] characters and no hyphen stands whole on one of the
    lines [format_data] returns. *)
Theorem format_data_keeps_short_words (text : str) (width : Z) (word : str) :
  In word (words text) ->
  len word <= width - 5 ->
  ~ In HYPHEN word ->
  exists lines, format_data text width = Ok lines /\ kept_whole word lines.
Proof.
  intros Hin Hfits Hh. rewrite words_split in Hin.
  pose proof (split_words text) as Hall.
  assert (Hword : is_word_str word) by (rewrite Forall_forall in Hall; auto).
  assert (Hwidth : 1 <= width - 5).
  { destruct Hword as [Hne _]. destruct word; [congruence|].
    rewrite len_cons in Hfits. pose proof (len_nonneg word). lia. }
  destruct (format_data_total text width ltac:(lia)) as [lines Hlines].
  exists lines. split; [assumption|].
  rewrite format_data_chunks in Hlines. unfold _wrap_chunks in Hlines.
  destruct (Z.leb_spec (width - 5) 0); [lia|].
  destruct (wrap_loop _ _ _ _) as [out|] eqn:Hloop; [|discriminate].
  injection Hlines as ->.
  apply in_split in Hin as (ws1 & ws2 & Hsplit).
  eapply wrap_loop_keeps; eauto.
  unfold collapse. rewrite Hsplit. apply chunks_join_isolated; [|assumption].
  now rewrite <- Hsplit.
Qed.

Lemma format_data_keeps_short_words_witness :
  exists lines,
    format_data (lit "Press [Enter] to show content") 12 = Ok lines
    /\ kept_whole (lit "[Enter]") lines.
Proof.
  apply (format_data_keeps_short_words
           (lit "Press [Enter] to show content") 12 (lit "[Enter]")).
  - vm_compute. tauto.
  - vm_compute. discriminate.
  - vm_compute. intuition discriminate.
Defined.

(** C3, as stated, fails: a word longer than the line is cut, and a word with
    a hyphen is broken after the hyphen although it fits. *)
Lemma format_data_splits_words :
  format_data (lit "abcdefgh") 9 = Ok [lit "abcd"; lit "efgh"]
  /\ ~ no_word_split (lit "abcdefgh") [lit "abcd"; lit "efgh"]
  /\ format_data (lit "aaaa well-known") 15 = Ok [lit "aaaa well-"; lit "known"]
  /\ ~ no_word_split (lit "aaaa well-known") [lit "aaaa well-"; lit "known"].
Proof.
  split; [vm_compute; reflexivity|]. split.
  { intros H. destruct (H (lit "abcdefgh")) as (l & Hl & Hw).
    - vm_compute. tauto.
    - destruct Hl as [<-|[<-|[]]]; vm_compute in Hw; intuition discriminate. }
  split; [vm_compute; reflexivity|].
  intros H. destruct (H (lit "well-known")) as (l & Hl & Hw).
  - vm_compute. tauto.
  - destruct Hl as [<-|[<-|[]]]; vm_compute in Hw; intuition discriminate.
Qed.

(** C5, as amended: for a width above 5 [format_data] returns lines of at
    most [width - 5] characters, and no line when the text is empty after
    whitespace collapsing; for a width of 5 or less it raises
    [ValueError]. *)
Theorem format_data_line_width (text : str) (width : Z) :
  (5 < width ->
   exists lines,
     format_data text width = Ok lines
     /\ Forall (fun l => len l <= width - 5) lines
     /\ (collapse text = [] -> lines = []))
  /\ (width <= 5 -> format_data text width = Raise ValueError).
Proof.
  split.
  - intros Hw. destruct (format_data_total text width Hw) as [lines Hlines].
    exists lines. split; [assumption|]. split.
    + exact (format_data_width text width lines Hlines).
    + intros E. rewrite (format_data_empty text width Hw E) in Hlines.
      now injection Hlines.
  - apply format_data_invalid_width.
Qed.

Lemma format_data_line_width_witness :
  (exists lines,
     format_data (lit "Capital of France") 12 = Ok lines
     /\ Forall (fun l => len l <= 12 - 5) lines
     /\ (collapse (lit "Capital of France") = [] -> lines = []))
  /\ format_data (lit "Capital of France") 5 = Raise ValueError.
Proof.
  split.
  - apply (proj1 (format_data_line_width (lit "Capital of France") 12)). lia.
  - apply (proj2 (format_data_line_width (lit "Capital of France") 5)). lia.
Defined.

(** C5, as stated, fails: with a width of 5 the empty text raises
    [ValueError] instead of giving the empty sequence. *)
Lemma format_data_empty_text_narrow :
  collapse [] = [] /\ format_data [] 5 = Raise ValueError
  /\ format_data [] 5 <> Ok [].
Proof. repeat split; try reflexivity. discriminate. Qed.

(** C4, as amended: a framed line is as long as the longer of the line and
    the width, so exactly [width] long for a line of at most [width]
    characters; and for a line shorter than [width - 2] that neither
    starts nor ends with a space or with the border character, taking the
    frame off gives the line back. *)
Theorem style_on_line_frame (line : str) (width : Z) (border_char : ascii) :
  len (style_on_line line width border_char) = Z.max (len line) width
  /\ (len line <= width -> len (style_on_line line width border_char) = width)
  /\ (len line < width - 2 ->
      not_first SPACE line -> not_last SPACE line ->
      not_first border_char line -> not_last border_char line ->
      unframe (style_on_line line width border_char) border_char = line).
Proof.
  split; [apply style_on_line_length|]. split.
  - intros H. rewrite style_on_line_length. lia.
  - apply unframe_style_on_line.
Qed.

Lemma style_on_line_frame_witness :
  len (style_on_line (lit "Paris") 70 BORDER) = 70
  /\ unframe (style_on_line (lit "Paris") 70 BORDER) BORDER = lit "Paris".
Proof.
  destruct (style_on_line_frame (lit "Paris") 70 BORDER) as (_ & Hlen & Hback).
  split.
  - apply Hlen. vm_compute. discriminate.
  - apply Hback; vm_compute; (reflexivity || discriminate).
Defined.

(** C4, as stated, fails: a line longer than the width is returned as it
    is; a leading space is trimmed away with the padding; and a leading
    border character is stripped with the border. *)
Lemma style_on_line_frame_fails :
  (len (style_on_line (lit "abcdef") 3 BORDER) = 6
   /\ len (style_on_line (lit "abcdef") 3 BORDER) <> 3)
  /\ (len (lit " a") < 10 - 2
      /\ unframe (style_on_line (lit " a") 10 BORDER) BORDER = lit "a"
      /\ unframe (style_on_line (lit " a") 10 BORDER) BORDER <> lit " a")
  /\ (len (lit "*bc") < 6 - 2
      /\ unframe (style_on_line (lit "*bc") 6 BORDER) BORDER = lit "bc"
      /\ unframe (style_on_line (lit "*bc") 6 BORDER) BORDER <> lit "*bc").
Proof. repeat split; vm_compute; discriminate. Qed.

(** ** Card renderer *)

(** The content block has the height the specification gives: the largest
    of [min_content_height], the number of lines of the wrapped content and
    the number of lines before padding. *)
Lemma get_content_height (s : state) (lines : list str) :
  value get_content s = Ok lines ->
  exists formatted shown,
    format_data (content (fst s)) (max_card_width (fst s)) = Ok formatted
    /\ format_data (shown_text (fst s)) (max_card_width (fst s)) = Ok shown
    /\ llen lines
       = Z.max (Z.max (min_content_height (fst s)) (llen formatted))
           (llen shown + 2).
Proof.
  unfold value. rewrite get_content_run. cbn [fst].
  unfold content_block, wrapped, framed.
  destruct (format_data (content (fst s)) _) as [formatted|e]; [|discriminate].
  destruct (format_data (shown_text (fst s)) _) as [shown|e]; [|discriminate].
  cbn [and_then]. intros [= <-]. exists formatted, shown.
  split; [reflexivity|]. split; [reflexivity|].
  unfold llen, blank_lines. cbn [List.length].
  rewrite length_map, !length_app. cbn [List.length].
  rewrite repeat_length. lia.
Qed.

(** C1, on the code: the content block of a card whose answer fills five
    lines has six lines while the answer is hidden and seven once it is
    shown. *)
Theorem get_content_height_changes :
  exists hidden_lines shown_lines,
    value get_content (essay, posix_terminal) = Ok hidden_lines
    /\ value get_content (with_hidden essay false, posix_terminal)
       = Ok shown_lines
    /\ llen hidden_lines = 6
    /\ llen shown_lines = 7.
Proof.
  do 2 eexists. split; [vm_compute; reflexivity|].
  split; [vm_compute; reflexivity|]. split; reflexivity.
Qed.

(** C2, on the code: two draws of that card bring the flag back to hidden,
    but the first draw prints 14 lines and the second 15. *)
Theorem draw_twice_line_count_changes :
  exists s1 s2,
    draw (essay, posix_terminal) = (Ok tt, s1)
    /\ draw s1 = (Ok tt, s2)
    /\ hide_content (fst s1) = false
    /\ hide_content (fst s2) = hide_content essay
    /\ List.length (trace (snd s1)) = 14%nat
    /\ List.length (trace (snd s2)) = (14 + 15)%nat.
Proof.
  do 2 eexists. split; [vm_compute; reflexivity|].
  split; [vm_compute; reflexivity|]. repeat split.
Qed.

(** C6, as amended: the rendering is the newline line, a border line, the
    topic block, two border lines, the content block, then, exactly when
    the keywords are present and not the empty string, two border lines and
    the keywords block, and a last border line. *)
Theorem get_lines_to_draw_render (border_char : ascii) (s : state) :
  value (get_lines_to_draw [border_char]) s
  = render_with truthy border_char (fst s).
Proof. unfold value. now rewrite get_lines_to_draw_run. Qed.

(** C6, as stated, fails: keywords that are the empty string are present,
    yet the rendering has neither their block nor its two border lines. *)
Lemma get_lines_to_draw_empty_keywords :
  present (keywords empty_keywords) = true
  /\ value (get_lines_to_draw [BORDER]) (empty_keywords, posix_terminal)
     <> render_with present BORDER empty_keywords.
Proof. split; [reflexivity|]. vm_compute. discriminate. Qed.

(** C7: in a rendering, the border line before the topic block, the two
    before the content block, the two before the keywords block and the
    last one are all the border character repeated [max_card_width]
    times. *)
Theorem border_lines_full_width (border_char : ascii) (s : state)
    (lines : list str) :
  value (get_lines_to_draw [border_char]) s = Ok lines ->
  let hb := repeat border_char (Z.to_nat (max_card_width (fst s))) in
  len hb = max_card_width (fst s)
  /\ exists t ct tail,
       lines = [[NEWLINE]] ++ [hb] ++ t ++ [hb; hb] ++ ct ++ tail ++ [hb]
       /\ value get_topic s = Ok t
       /\ value get_content s = Ok ct
       /\ (tail = []
           \/ exists kw, value get_keywords s = Ok kw /\ tail = [hb; hb] ++ kw).
Proof.
  rewrite get_lines_to_draw_render. intros Hr hb. split.
  - subst hb. rewrite len_repeat.
    destruct (Z.le_gt_cases (max_card_width (fst s)) 5) as [Hn|Hn]; [|lia].
    unfold render_with, topic_block, wrapped in Hr.
    now rewrite format_data_invalid_width in Hr.
  - unfold value. rewrite get_topic_run, get_content_run, get_keywords_run.
    cbn [fst]. unfold render_with, border_line in Hr. fold hb in Hr.
    destruct (topic_block (fst s)) as [t|e]; [|discriminate].
    destruct (content_block (fst s)) as [ct|e]; [|discriminate].
    cbn [and_then] in Hr. exists t, ct.
    destruct (truthy (keywords (fst s))).
    + destruct (keywords_block (fst s)) as [kw|e]; [|discriminate].
      cbn [and_then] in Hr. injection Hr as <-.
      exists ([hb; hb] ++ kw).
      split; [now rewrite <- !app_assoc|].
      split; [reflexivity|]. split; [reflexivity|]. right. eauto.
    + injection Hr as <-. exists [].
      split; [reflexivity|].
      split; [reflexivity|]. split; [reflexivity|]. now left.
Qed.

Lemma border_lines_full_width_witness :
  let lines := lines_of (render france) in
  let hb := repeat BORDER (Z.to_nat (max_card_width france)) in
  len hb = max_card_width france
  /\ exists t ct tail,
       lines = [[NEWLINE]] ++ [hb] ++ t ++ [hb; hb] ++ ct ++ tail ++ [hb]
       /\ value get_topic (france, posix_terminal) = Ok t
       /\ value get_content (france, posix_terminal) = Ok ct
       /\ (tail = []
           \/ exists kw, value get_keywords (france, posix_terminal) = Ok kw
                         /\ tail = [hb; hb] ++ kw).
Proof.
  apply (border_lines_full_width BORDER (france, posix_terminal)
           (lines_of (render france))).
  vm_compute. reflexivity.
Defined.

(** C9: whether the keywords block and the two border lines before it
    are part of the rendering depends on the truth value of the keywords:
    they are left out for [None] and for the empty string, and are there
    for every other string. *)
Theorem keywords_block_by_truth_value (border_char : ascii)
    (width height : Z) (topic content : str) (hidden : bool) (w : world) :
  let card kw := mkFlashcard width height topic content kw hidden in
  value (get_lines_to_draw [border_char]) (card None, w)
  = render_with (fun _ => false) border_char (card None)
  /\ value (get_lines_to_draw [border_char]) (card (Some []), w)
     = render_with (fun _ => false) border_char (card (Some []))
  /\ forall c kw,
       value (get_lines_to_draw [border_char]) (card (Some (c :: kw)), w)
       = render_with (fun _ => true) border_char (card (Some (c :: kw))).
Proof.
  intros card. repeat split; intros; now rewrite get_lines_to_draw_render.
Qed.

(** C10: [draw] leaves every attribute but [hide_content] as it was, and
    the methods that compute lines leave the card and the terminal as they
    were. *)
Theorem draw_changes_only_hide_content (s : state) :
  (let fc' := fst (state_after draw s) in
   topic fc' = topic (fst s)
   /\ content fc' = content (fst s)
   /\ keywords fc' = keywords (fst s)
   /\ max_card_width fc' = max_card_width (fst s)
   /\ min_content_height fc' = min_content_height (fst s))
  /\ state_after get_topic s = s
  /\ state_after get_content s = s
  /\ state_after get_keywords s = s
  /\ forall border, state_after (get_lines_to_draw border) s = s.
Proof.
  split.
  - destruct s as [fc w]. unfold state_after. rewrite draw_run.
    destruct (render fc); cbn; repeat split.
  - unfold state_after.
    rewrite get_topic_run, get_content_run, get_keywords_run.
    repeat split. intros border.
    unfold get_lines_to_draw, bind, self_, ret. cbn [fst snd].
    rewrite get_topic_run. cbn [fst snd].
    destruct (topic_block (fst s)); [|reflexivity].
    rewrite get_content_run. cbn [fst snd].
    destruct (content_block (fst s)); [|reflexivity].
    destruct (truthy (keywords (fst s))); [|reflexivity].
    unfold bind, ret. rewrite get_keywords_run. cbn [fst snd].
    destruct (keywords_block (fst s)); reflexivity.
Qed.

(** ** Session runner *)

Section Session.
Variable randbelow : nat -> nat.

(** C8, as amended: when every card is more than five columns wide, the
    session shows the cards in turn, in the order of the file or in the
    shuffled order, each in two phases: the terminal is cleared, the card
    is drawn with the placeholder, a line is read, the terminal is
    cleared, the card is drawn with its content, a line is read.  The
    cards end hidden again. *)
Theorem run_flashcards_session (parsed_file : list card_data)
    (ordered : bool) (w : world) :
  Forall (fun data => 5 < default (data_max_card_width data) MAX_WIDTH)
    parsed_file ->
  let cards := construct parsed_file in
  let order := if ordered then cards else shuffle randbelow cards in
  run_flashcards randbelow cards ordered w
  = (Ok tt, order,
     {| os_name := os_name w;
        trace := trace w ++ session (os_name w) order |}).
Proof.
  intros H cards order. unfold run_flashcards.
  assert (Hready : Forall ready order).
  { subst order. destruct ordered.
    - now apply construct_ready.
    - now apply shuffle_Forall, construct_ready. }
  rewrite (for_cards_run _ [] w) by (destruct ordered; exact Hready).
  destruct ordered; reflexivity.
Qed.

End Session.

Lemma run_flashcards_session_witness :
  run_flashcards (fun _ => O) (construct [france_data]) true posix_terminal
  = (Ok tt, construct [france_data],
     {| os_name := lit "posix";
        trace := session (lit "posix") (construct [france_data]) |}).
Proof.
  apply (run_flashcards_session (fun _ => O) [france_data] true posix_terminal).
  constructor; [|constructor]. vm_compute. reflexivity.
Defined.

(** C8, as stated, fails: a card five columns wide ends the session at its
    first draw; the terminal is cleared, nothing is drawn and no line is
    read. *)
Lemma run_flashcards_narrow_card :
  run_flashcards (fun _ => O) (construct [narrow_data]) true posix_terminal
  = (Raise ValueError, construct [narrow_data],
     {| os_name := lit "posix"; trace := [System (lit "clear")] |}).
Proof. vm_compute. reflexivity. Qed.

End Claims.

Module InkFacts.
Import Analysis PyStr TextWrap Flashcards Spec.
Import PyStrFacts TextWrapFacts WrapFacts LoopFacts SplitFacts ChunkFacts.
Import IsolationFacts KeepFacts FormatFacts.

(** ** The chunks are the text, cut *)

Lemma re_split_concat (fuel : nat) (before after pending : str)
    (pieces : list str) :
  re_split fuel before after pending = Some pieces ->
  List.concat pieces = rev pending ++ after.
Proof.
  revert before after pending pieces.
  induction fuel as [|fuel IH]; intros before after pending pieces.
  - destruct after; [|discriminate]. cbn. intros [= <-]. cbn.
    now rewrite !app_nil_r.
  - destruct after as [|c after].
    + cbn. intros [= <-]. cbn. now rewrite !app_nil_r.
    + cbn [re_split].
      destruct (wordsep_match before (c :: after)) as [n|].
      * destruct (re_split fuel _ _ []) as [rest|] eqn:E; [|discriminate].
        intros [= <-]. apply IH in E. cbn [List.concat]. rewrite E.
        cbn [rev app]. now rewrite firstn_skipn.
      * intros H%IH. rewrite H. cbn [rev]. now rewrite <- app_assoc.
Qed.

Lemma concat_filter_nonempty (pieces : list str) :
  List.concat (filter nonempty pieces) = List.concat pieces.
Proof.
  induction pieces as [|p pieces IH]; [reflexivity|].
  destruct p; cbn [filter nonempty List.concat]; [exact IH|].
  now rewrite IH.
Qed.

Lemma chunks_of_concat (before text : str) :
  List.concat (chunks_of before text) = text.
Proof.
  unfold chunks_of.
  destruct (re_split_total (List.length text) before text [] (le_n _))
    as [pieces E].
  rewrite E, concat_filter_nonempty. now apply re_split_concat in E.
Qed.

Lemma chunks_of_nonempty (before text : str) :
  Forall (fun c => c <> []) (chunks_of before text).
Proof.
  unfold chunks_of. destruct (re_split _ _ _ _) as [pieces|]; [|constructor].
  apply Forall_forall. intros c [_ Hc]%filter_In. now destruct c.
Qed.

(** ** One pass moves characters from the stack to the line *)

Lemma ink_app (s t : str) : ink (s ++ t) = ink s ++ ink t.
Proof. apply filter_app. Qed.

Lemma ink_blank (c : str) : strip_is_empty c = true -> ink c = [].
Proof.
  unfold strip_is_empty, ink. induction c as [|d c IH]; [reflexivity|].
  cbn. intros [Hd Hc]%andb_prop. rewrite Hd. cbn. auto.
Qed.

Lemma ink_drop_leading (chunks lines : list str) :
  ink (List.concat (drop_leading chunks lines)) = ink (List.concat chunks).
Proof.
  unfold drop_leading. destruct chunks as [|c rest]; [reflexivity|].
  destruct (strip_is_empty c) eqn:Hc; cbn [andb]; [|reflexivity].
  destruct (negb _); [|reflexivity].
  cbn [List.concat]. now rewrite ink_app, (ink_blank c Hc).
Qed.

Lemma ink_drop_trailing (cur_line : list str) :
  ink (List.concat (drop_trailing cur_line)) = ink (List.concat cur_line).
Proof.
  destruct cur_line as [|c x] using rev_ind; [reflexivity|].
  rewrite drop_trailing_snoc. destruct (strip_is_empty c) eqn:Hc; [|reflexivity].
  rewrite concat_app, ink_app. cbn [List.concat].
  now rewrite app_nil_r, (ink_blank c Hc), app_nil_r.
Qed.

Lemma line_text_finish (cur_line : list str) :
  line_text (finish cur_line) = List.concat cur_line.
Proof. now destruct cur_line. Qed.

Lemma pass_ink (width : Z) (chunks lines : list str) (line : option str)
    (rest : list str) :
  pass width chunks lines line rest ->
  ink (List.concat chunks) = ink (line_text line) ++ ink (List.concat rest).
Proof.
  intros Hpass. rewrite <- (ink_drop_leading chunks lines).
  destruct Hpass as [taken rest Hsplit _ _|taken c rest Hsplit _ _];
    rewrite Hsplit, line_text_finish, ink_drop_trailing, <- ink_app.
  - now rewrite concat_app.
  - rewrite !concat_app. cbn [List.concat].
    now rewrite app_nil_r, <- !app_assoc, (app_assoc (slice_to _ _)), slice_split.
Qed.

Lemma wrap_loop_ink (width : Z) (fuel : nat) (chunks lines out : list str) :
  0 <= width ->
  wrap_loop fuel width chunks lines = Some out ->
  ink (List.concat out) = ink (List.concat lines) ++ ink (List.concat chunks).
Proof.
  intros Hw. revert chunks lines.
  induction fuel as [|fuel IH]; intros chunks lines.
  - destruct chunks; [|discriminate]. cbn. intros [= <-]. now rewrite app_nil_r.
  - destruct chunks as [|c chunks].
    + cbn. intros [= <-]. now rewrite app_nil_r.
    + cbn [wrap_loop].
      pose proof (wrap_line_pass width (c :: chunks) lines Hw) as Hpass.
      destruct (wrap_line width (c :: chunks) lines) as [line rest].
      cbn [fst snd] in Hpass. apply pass_ink in Hpass.
      intros H%IH. rewrite H, Hpass.
      destruct line as [l|]; cbn [line_text].
      * rewrite concat_app, ink_app. cbn [List.concat].
        now rewrite app_nil_r, <- app_assoc.
      * reflexivity.
Qed.

(** ** Collapsing keeps the characters *)

Lemma concat_split (text : str) : List.concat (split text) = ink text.
Proof.
  induction text as [|c s IH]; [reflexivity|].
  destruct (isspace c) eqn:Hc.
  - rewrite split_cons_space by assumption. unfold ink. cbn. now rewrite Hc.
  - unfold ink in *. cbn [filter]. rewrite Hc. cbn [negb].
    destruct s as [|d s]; [now rewrite split_single|].
    destruct (isspace d) eqn:Hd.
    + rewrite split_cons_word_space by assumption. cbn [List.concat app].
      now rewrite IH.
    + rewrite split_cons_word_word by assumption. rewrite <- IH.
      pose proof (split_head_nonspace d s Hd) as Hne.
      destruct (split (d :: s)); [congruence|reflexivity].
Qed.

Lemma ink_word (w : str) : is_word_str w -> ink w = w.
Proof.
  intros [_ Hw]. unfold ink. induction Hw as [|c w Hc Hw IH]; [reflexivity|].
  cbn. rewrite Hc. cbn. now rewrite IH.
Qed.

Lemma ink_join (ws : list str) :
  Forall is_word_str ws -> ink (join [SPACE] ws) = List.concat ws.
Proof.
  induction 1 as [|w ws Hw Hws IH]; [reflexivity|].
  destruct ws as [|w' ws].
  - cbn [join List.concat]. now rewrite app_nil_r, ink_word.
  - rewrite join_cons by discriminate. rewrite !ink_app, IH, ink_word by assumption.
    reflexivity.
Qed.

Lemma ink_collapse (text : str) : ink (collapse text) = ink text.
Proof.
  unfold collapse. rewrite ink_join by apply split_words. apply concat_split.
Qed.

End InkFacts.

Module LineFacts.
Import Analysis PyStr TextWrap Flashcards Spec.
Import PyStrFacts TextWrapFacts WrapFacts LoopFacts SplitFacts ChunkFacts.
Import IsolationFacts KeepFacts FormatFacts InkFacts.

(** ** No line is empty *)

Lemma concat_nonempty (x : list str) :
  x <> [] -> Forall (fun c => c <> []) x -> List.concat x <> [].
Proof.
  destruct x as [|c x]; [congruence|]. intros _ H.
  inversion H as [|? ? Hc _]; subst. cbn. destruct c; [congruence|discriminate].
Qed.

Lemma finish_nonempty (x : list str) (l : str) :
  Forall (fun c => c <> []) x -> finish x = Some l -> l <> [].
Proof.
  destruct x as [|c x]; [discriminate|]. intros H [= <-].
  inversion H as [|? ? Hc _]; subst. destruct c; [congruence|discriminate].
Qed.

Lemma drop_trailing_Forall (P : str -> Prop) (x : list str) :
  Forall P x -> Forall P (drop_trailing x).
Proof.
  destruct x as [|c x _] using rev_ind; [auto|].
  rewrite drop_trailing_snoc. intros H.
  destruct (strip_is_empty c); [|assumption].
  now apply Forall_app in H as [H _].
Qed.

Lemma drop_leading_Forall (P : str -> Prop) (chunks lines : list str) :
  Forall P chunks -> Forall P (drop_leading chunks lines).
Proof.
  unfold drop_leading. destruct chunks as [|c rest]; [auto|].
  destruct (_ && _); [|auto]. intros H. now inversion H.
Qed.

Lemma slice_to_nonempty (c : str) (k : Z) :
  strip_is_empty (slice_to c k) = false -> slice_to c k <> [].
Proof. intros H E. rewrite E in H. discriminate. Qed.

Lemma slice_from_nonempty (c : str) (k : Z) :
  0 <= k < len c -> slice_from c k <> [].
Proof.
  intros Hk E. apply (f_equal (@List.length ascii)) in E.
  unfold slice_from in E. rewrite length_skipn in E.
  unfold clip, len in *. destruct (Z.ltb_spec k 0); simpl in E; lia.
Qed.

Lemma pass_nonempty (width : Z) (chunks lines : list str)
    (line : option str) (rest : list str) :
  1 <= width ->
  Forall (fun c => c <> []) chunks ->
  pass width chunks lines line rest ->
  Forall (fun c => c <> []) rest /\ forall l, line = Some l -> l <> [].
Proof.
  intros Hw Hall Hpass.
  apply (drop_leading_Forall _ chunks lines) in Hall.
  destruct Hpass as [taken rest Hsplit Hle _|taken c rest Hsplit Hle Hlong];
    rewrite Hsplit in Hall; apply Forall_app in Hall as [Htaken Hrest].
  - split; [assumption|]. intros l Hl.
    eapply finish_nonempty; [|exact Hl]. now apply drop_trailing_Forall.
  - inversion Hrest as [|? ? Hc Hrest']; subst.
    destruct (cut_point_bounds c (chars taken) width Hw Hle) as [[H0 H1] _].
    pose proof (chars_nonneg taken). split.
    + constructor; [|assumption]. apply slice_from_nonempty. lia.
    + intros l Hl. eapply finish_nonempty; [|exact Hl].
      rewrite drop_trailing_snoc.
      destruct (strip_is_empty (slice_to c _)) eqn:E; [assumption|].
      apply Forall_app. split; [assumption|].
      constructor; [|constructor]. now apply slice_to_nonempty.
Qed.

Lemma wrap_loop_nonempty (width : Z) (fuel : nat) (chunks lines out : list str) :
  1 <= width ->
  Forall (fun c => c <> []) chunks ->
  Forall (fun l => l <> []) lines ->
  wrap_loop fuel width chunks lines = Some out ->
  Forall (fun l => l <> []) out.
Proof.
  intros Hw. revert chunks lines.
  induction fuel as [|fuel IH]; intros chunks lines Hchunks Hlines.
  - destruct chunks; [|discriminate]. cbn. now intros [= <-].
  - destruct chunks as [|c chunks]; [cbn; now intros [= <-]|].
    cbn [wrap_loop].
    pose proof (wrap_line_pass width (c :: chunks) lines ltac:(lia)) as Hpass.
    destruct (wrap_line width (c :: chunks) lines) as [line rest].
    cbn [fst snd] in Hpass.
    destruct (pass_nonempty width _ _ _ _ Hw Hchunks Hpass) as [Hrest Hline].
    apply IH; [assumption|].
    destruct line as [l|]; [|assumption].
    apply Forall_app. split; [assumption|]. constructor; [|constructor].
    now apply Hline.
Qed.

(** ** A text that fits is one line *)

Lemma take_fitting_all (width : Z) (chunks cur_line : list str) (cur_len : Z) :
  cur_len + chars chunks <= width ->
  take_fitting width chunks cur_line cur_len
  = (cur_line ++ chunks, cur_len + chars chunks, []).
Proof.
  revert cur_line cur_len.
  induction chunks as [|c chunks IH]; intros cur_line cur_len H.
  - cbn [take_fitting]. now rewrite app_nil_r, chars_nil, Z.add_0_r.
  - cbn [take_fitting]. rewrite chars_cons in H.
    pose proof (chars_nonneg chunks).
    destruct (Z.leb_spec (cur_len + len c) width); [|lia].
    rewrite IH by lia. rewrite <- app_assoc, chars_cons. f_equal. f_equal. lia.
Qed.

Lemma last_chunk_not_blank (chunks : list str) (x : str) (c : ascii) :
  Forall (fun k => k <> []) chunks ->
  List.concat chunks = x ++ [c] -> isspace c = false ->
  drop_trailing chunks = chunks.
Proof.
  intros Hall Hcat Hc.
  destruct chunks as [|k ks _] using rev_ind; [reflexivity|].
  rewrite drop_trailing_snoc.
  apply Forall_app in Hall as [_ Hk]. inversion Hk as [|? ? Hne _]; subst.
  destruct k as [|d k' _] using rev_ind; [congruence|].
  rewrite concat_app in Hcat. cbn [List.concat] in Hcat.
  rewrite app_nil_r, app_assoc in Hcat.
  apply app_inj_tail in Hcat as [_ ->].
  unfold strip_is_empty. rewrite forallb_app. cbn. rewrite Hc.
  now rewrite andb_false_r.
Qed.

Lemma join_last (ws : list str) :
  Forall is_word_str ws -> ws <> [] ->
  exists x c, join [SPACE] ws = x ++ [c] /\ isspace c = false.
Proof.
  induction 1 as [|w ws Hw Hws IH]; [congruence|]. intros _.
  destruct ws as [|w' ws].
  - cbn [join]. destruct Hw as [Hne Hall].
    destruct w as [|c w' _] using rev_ind; [congruence|].
    exists w', c. split; [reflexivity|].
    apply Forall_app in Hall as [_ Hc]. now inversion Hc.
  - destruct (IH ltac:(discriminate)) as (x & c & E & Hc).
    rewrite join_cons by discriminate. rewrite E.
    exists (w ++ [SPACE] ++ x), c. split; [|assumption].
    now rewrite <- !app_assoc.
Qed.

Lemma wrap_line_one_line (width : Z) (chunks : list str) (x : str) (c : ascii) :
  Forall (fun k => k <> []) chunks ->
  List.concat chunks = x ++ [c] -> isspace c = false ->
  chars chunks <= width ->
  wrap_line width chunks [] = (Some (List.concat chunks), []).
Proof.
  intros Hall Hcat Hc Hfit. unfold wrap_line.
  replace (match chunks with
           | [] => chunks
           | c0 :: rest =>
               if strip_is_empty c0 && negb (Nat.eqb (List.length (@nil str)) 0)
               then rest else chunks
           end) with chunks
    by (destruct chunks; [reflexivity|]; cbn; now rewrite andb_false_r).
  rewrite take_fitting_all by lia. cbn [app].
  fold (drop_trailing chunks).
  rewrite (last_chunk_not_blank chunks x c) by assumption.
  destruct chunks; [destruct x; discriminate|reflexivity].
Qed.

Lemma wrap_chunks_one_line (width : Z) (chunks : list str) (x : str) (c : ascii) :
  Forall (fun k => k <> []) chunks ->
  List.concat chunks = x ++ [c] -> isspace c = false ->
  chars chunks <= width ->
  _wrap_chunks width chunks = Ok [List.concat chunks].
Proof.
  intros Hall Hcat Hc Hfit.
  assert (Hpos : 1 <= width).
  { unfold chars in Hfit. rewrite Hcat, len_app in Hfit.
    pose proof (len_nonneg x). cbn in Hfit. lia. }
  unfold _wrap_chunks. destruct (Z.leb_spec width 0); [lia|].
  pose proof (wrap_line_one_line width chunks x c Hall Hcat Hc Hfit) as Hline.
  destruct chunks as [|k ks]; [destruct x; discriminate|].
  change (weight (k :: ks)) with (S (List.length k + weight ks)).
  cbn [wrap_loop]. rewrite Hline.
  now destruct (List.length k + weight ks)%nat.
Qed.

End LineFacts.

Module CenterFacts.
Import Analysis PyStr Flashcards Spec PyStrFacts.

(** [marg & width & 1] is 1 exactly when both numbers are odd. *)
Lemma land_bit_odd (marg width : Z) :
  Z.land (Z.land marg width) 1 = Z.b2z (Z.odd marg && Z.odd width).
Proof.
  assert (E : Z.land (Z.land marg width) 1 = Z.land marg width mod 2).
  { apply (Z.land_ones (Z.land marg width) 1). lia. }
  rewrite E, <- Z.bit0_mod, Z.land_spec, !Z.bit0_odd. reflexivity.
Qed.

Lemma odd_mod (a : Z) : a mod 2 = Z.b2z (Z.odd a).
Proof. now rewrite <- Z.bit0_mod, Z.bit0_odd. Qed.

(** The fill is split evenly; an odd fill character goes to the left for
    an odd width and to the right for an even one. *)
Lemma center_balanced (s : str) (width : Z) (c : ascii) :
  len s <= width ->
  exists l r : nat,
    center s width c = repeat c l ++ s ++ repeat c r
    /\ Z.of_nat l + Z.of_nat r = width - len s
    /\ (Z.odd width = true -> (r <= l <= r + 1)%nat)
    /\ (Z.odd width = false -> (l <= r <= l + 1)%nat).
Proof.
  intros Hle. destruct (Z.eq_dec (len s) width) as [E|Hne].
  - exists O, O. unfold center. destruct (Z.leb_spec width (len s)); [|lia].
    cbn. rewrite app_nil_r. repeat split; lia.
  - unfold center. destruct (Z.leb_spec width (len s)); [lia|].
    set (marg := width - len s).
    pose proof (center_left_bound marg width ltac:(lia)) as Hb.
    rewrite land_bit_odd in *.
    exists (Z.to_nat (marg / 2 + Z.b2z (Z.odd marg && Z.odd width))),
           (Z.to_nat (marg - (marg / 2 + Z.b2z (Z.odd marg && Z.odd width)))).
    split; [reflexivity|]. split; [lia|].
    pose proof (Z.div_mod marg 2 ltac:(lia)) as Hdm.
    rewrite odd_mod in Hdm.
    destruct (Z.odd marg), (Z.odd width); cbn [andb Z.b2z] in *;
      split; intros; try discriminate; lia.
Qed.

End CenterFacts.

Module ShuffleFacts.
Import Analysis Flashcards.

Lemma set_item_length {A} (lst : list A) (i : nat) (v : A) :
  List.length (set_item lst i v) = List.length lst.
Proof.
  revert i. induction lst as [|x l IH]; intros i; [reflexivity|].
  destruct i; cbn; [reflexivity|]. now rewrite IH.
Qed.

(** Taking an element out and putting another one in its place. *)
Lemma set_item_Permutation {A} (l : list A) (k : nat) (a b : A) :
  nth_error l k = Some b -> Permutation (b :: set_item l k a) (a :: l).
Proof.
  revert k. induction l as [|c l IH]; intros k; [destruct k; discriminate|].
  destruct k as [|k]; cbn.
  - intros [= ->]. apply perm_swap.
  - intros H. apply IH in H.
    apply perm_trans with (c :: b :: set_item l k a); [apply perm_swap|].
    apply perm_trans with (c :: a :: l); [now apply perm_skip|apply perm_swap].
Qed.

Lemma swap_Permutation {A} (x : list A) (i j : nat) : Permutation (swap x i j) x.
Proof.
  unfold swap.
  destruct (nth_error x j) as [xj|] eqn:Ej; [|reflexivity].
  destruct (nth_error x i) as [xi|] eqn:Ei; [|reflexivity].
  revert i j Ei Ej. induction x as [|a x IH]; intros i j Ei Ej;
    [destruct i; discriminate|].
  destruct i as [|i], j as [|j]; cbn in *.
  - injection Ei as ->. injection Ej as ->. reflexivity.
  - injection Ei as ->. now apply set_item_Permutation.
  - injection Ej as ->. now apply set_item_Permutation.
  - apply perm_skip. now apply IH.
Qed.

Lemma shuffle_Permutation {A} (randbelow : nat -> nat) (x : list A) :
  Permutation (shuffle randbelow x) x.
Proof.
  unfold shuffle. generalize (List.length x - 1)%nat as i.
  intros i. revert x. induction i as [|i IH]; intros x; [reflexivity|].
  cbn [shuffle_from]. eapply perm_trans; [apply IH|apply swap_Permutation].
Qed.

End ShuffleFacts.

Module RectangleFacts.
Import Analysis PyStr Flashcards Spec PyStrFacts FormatFacts FrameFacts.

Lemma framed_width (c : Flashcard) (lines : list str) :
  Forall (fun l => len l <= max_card_width c) lines ->
  Forall (fun l => len l = max_card_width c) (framed c lines).
Proof.
  intros H. unfold framed. apply Forall_map.
  eapply Forall_impl; [|exact H]. cbn. intros l Hl.
  rewrite style_on_line_length. lia.
Qed.

Lemma wrapped_width (c : Flashcard) (text : str) (lines : list str) :
  wrapped c text = Ok lines ->
  Forall (fun l => len l <= max_card_width c) lines.
Proof.
  intros H%format_data_width. eapply Forall_impl; [|exact H].
  cbn. intros l Hl. lia.
Qed.

Lemma wrapped_wide (c : Flashcard) (text : str) (lines : list str) :
  wrapped c text = Ok lines -> 5 < max_card_width c.
Proof.
  intros H. destruct (Z.le_gt_cases (max_card_width c) 5) as [Hn|Hn]; [|lia].
  unfold wrapped in H. now rewrite format_data_invalid_width in H.
Qed.

Lemma blank_width (c : Flashcard) :
  0 <= max_card_width c -> len (@nil ascii) <= max_card_width c.
Proof. now cbn. Qed.

Lemma blank_lines_width (c : Flashcard) (n : Z) :
  0 <= max_card_width c ->
  Forall (fun l => len l <= max_card_width c) (blank_lines n).
Proof.
  intros H. unfold blank_lines. apply Forall_forall.
  intros l ->%repeat_spec. assumption.
Qed.

Lemma topic_block_width (c : Flashcard) (t : list str) :
  topic_block c = Ok t -> Forall (fun l => len l = max_card_width c) t.
Proof.
  unfold topic_block. destruct (wrapped c (topic c)) as [f|] eqn:E; [|discriminate].
  cbn [and_then]. intros Heq. apply (f_equal lines_of) in Heq.
  cbn [lines_of] in Heq. subst t. pose proof (wrapped_wide _ _ _ E).
  apply framed_width. repeat (apply Forall_app; split).
  - constructor; [apply blank_width; lia|constructor].
  - eapply wrapped_width; eauto.
  - constructor; [apply blank_width; lia|constructor].
Qed.

Lemma keywords_block_width (c : Flashcard) (t : list str) :
  keywords_block c = Ok t -> Forall (fun l => len l = max_card_width c) t.
Proof.
  unfold keywords_block. destruct (keywords c) as [kw|]; [|discriminate].
  destruct (wrapped c kw) as [f|] eqn:E; [|discriminate].
  cbn [and_then]. intros Heq. apply (f_equal lines_of) in Heq.
  cbn [lines_of] in Heq. subst t. pose proof (wrapped_wide _ _ _ E).
  apply framed_width. repeat (apply Forall_app; split).
  - constructor; [apply blank_width; lia|constructor].
  - eapply wrapped_width; eauto.
  - constructor; [apply blank_width; lia|constructor].
Qed.

Lemma content_block_width (c : Flashcard) (t : list str) :
  content_block c = Ok t -> Forall (fun l => len l = max_card_width c) t.
Proof.
  unfold content_block.
  destruct (wrapped c (content c)) as [f|] eqn:E; [|discriminate].
  destruct (wrapped c (shown_text c)) as [sh|] eqn:E2; [|discriminate].
  cbn [and_then]. intros Heq. apply (f_equal lines_of) in Heq.
  cbn [lines_of] in Heq. subst t. pose proof (wrapped_wide _ _ _ E).
  apply framed_width. repeat (apply Forall_app; split).
  - constructor; [apply blank_width; lia|constructor].
  - eapply wrapped_width; eauto.
  - constructor; [apply blank_width; lia|constructor].
  - apply blank_lines_width. lia.
Qed.

End RectangleFacts.

Module StopFacts.
Import Analysis PyStr Flashcards Spec PyStrFacts CardFacts SessionFacts.

(** The loop shows the cards that can be rendered and stops at the first
    one that cannot. *)
Lemma for_cards_stops (good : list Flashcard) (bad : Flashcard)
    (rest done : list Flashcard) (w : world) :
  Forall ready good -> max_card_width bad <= 5 ->
  for_cards (good ++ bad :: rest) done w
  = (Raise ValueError, done ++ good ++ bad :: rest,
     {| os_name := os_name w;
        trace := trace w ++ session (os_name w) good
                   ++ [clear_screen (os_name w)] |}).
Proof.
  intros Hgood Hbad. revert done w.
  induction Hgood as [|fc good [Hw Hh] Hgood IH]; intros done w.
  - cbn [app for_cards]. rewrite narrow_card_run by assumption. reflexivity.
  - cbn [app for_cards]. rewrite two_phases_run by assumption.
    rewrite IH. cbn [os_name trace session flat_map].
    now rewrite <- !app_assoc.
Qed.

End StopFacts.

Module HeightFacts.
Import Analysis PyStr TextWrap Flashcards Spec Examples.
Import PyStrFacts SplitFacts ChunkFacts FormatFacts CardFacts InkFacts LineFacts.

(** On a card of 34 columns or more the placeholder is one line. *)
Lemma placeholder_one_line (width : Z) :
  34 <= width -> format_data PLACEHOLDER width = Ok [PLACEHOLDER].
Proof.
  intros H. rewrite format_data_chunks.
  assert (E : List.concat (chunks_of [] (collapse PLACEHOLDER)) = PLACEHOLDER)
    by (now rewrite chunks_of_concat).
  rewrite <- E at 2.
  apply (wrap_chunks_one_line _ _ (lit "Press [Enter] to show conten")
           "t"%char).
  - apply chunks_of_nonempty.
  - now rewrite E.
  - reflexivity.
  - unfold chars. rewrite E. change (len PLACEHOLDER) with 29. lia.
Qed.

Lemma content_block_llen (c : Flashcard) (formatted shown : list str) :
  wrapped c (content c) = Ok formatted ->
  wrapped c (shown_text c) = Ok shown ->
  exists lines,
    content_block c = Ok lines
    /\ llen lines
       = Z.max (Z.max (min_content_height c) (llen formatted)) (llen shown + 2).
Proof.
  intros Hf Hs. unfold content_block. rewrite Hf, Hs. cbn [and_then].
  eexists. split; [reflexivity|].
  unfold framed, llen, blank_lines.
  rewrite length_map, !length_app, repeat_length. cbn [List.length]. lia.
Qed.

End HeightFacts.

Module Extras.
Import Analysis PyStr TextWrap Flashcards Spec Examples.
Import PyStrFacts LoopFacts SplitFacts ChunkFacts FormatFacts FrameFacts.
Import CardFacts SessionFacts InkFacts LineFacts CenterFacts ShuffleFacts.
Import RectangleFacts StopFacts HeightFacts.

(** ** [format_data] *)

(** X1: [format_data] keeps the characters of the text that are not
    whitespace, all of them and in their order, and adds none: the lines,
    put end to end and without their whitespace, are the text without its
    whitespace. *)
Theorem format_data_keeps_characters (text : str) (width : Z)
    (lines : list str) :
  format_data text width = Ok lines ->
  ink (List.concat lines) = ink text.
Proof.
  rewrite format_data_chunks. unfold _wrap_chunks.
  destruct (Z.leb_spec (width - 5) 0); [discriminate|].
  destruct (wrap_loop _ _ _ _) as [out|] eqn:E; [|discriminate].
  intros [= <-]. apply wrap_loop_ink in E; [|lia].
  rewrite E, chunks_of_concat. apply ink_collapse.
Qed.

Lemma format_data_keeps_characters_witness :
  ink (List.concat [lit "aaaa well-"; lit "known"]) = ink (lit "aaaa  well-known ").
Proof.
  apply (format_data_keeps_characters (lit "aaaa  well-known ") 15).
  vm_compute. reflexivity.
Defined.

(** X2: [format_data] returns no empty line. *)
Theorem format_data_no_empty_line (text : str) (width : Z) (lines : list str) :
  format_data text width = Ok lines ->
  Forall (fun l => l <> []) lines.
Proof.
  rewrite format_data_chunks. unfold _wrap_chunks.
  destruct (Z.leb_spec (width - 5) 0); [discriminate|].
  destruct (wrap_loop _ _ _ _) as [out|] eqn:E; [|discriminate].
  intros [= <-].
  apply (wrap_loop_nonempty (width - 5) _ _ [] out ltac:(lia)) in E;
    [assumption|apply chunks_of_nonempty|constructor].
Qed.

Lemma format_data_no_empty_line_witness :
  Forall (fun l => l <> []) [lit "abcd"; lit "efgh"].
Proof.
  apply (format_data_no_empty_line (lit "abcdefgh") 9).
  vm_compute. reflexivity.
Defined.

(** X3: a text that is not empty after whitespace collapsing and has then
    at most [max_length - 5] characters is returned as one line, the
    collapsed text. *)
Theorem format_data_one_line (text : str) (max_length : Z) :
  collapse text <> [] ->
  len (collapse text) <= max_length - 5 ->
  format_data text max_length = Ok [collapse text].
Proof.
  intros Hne Hfit. rewrite format_data_chunks.
  assert (Hws : split text <> []).
  { intros E. unfold collapse in Hne. now rewrite E in Hne. }
  destruct (join_last (split text) (split_words text) Hws) as (x & c & E & Hc).
  fold (collapse text) in E.
  pose proof (chunks_of_concat [] (collapse text)) as Hcat.
  rewrite <- Hcat at 2.
  apply (wrap_chunks_one_line _ _ x c);
    [apply chunks_of_nonempty|now rewrite Hcat|assumption|].
  unfold chars. now rewrite Hcat.
Qed.

Lemma format_data_one_line_witness :
  format_data (lit "  Capital   of France ") 70 = Ok [lit "Capital of France"].
Proof.
  apply (format_data_one_line (lit "  Capital   of France ") 70).
  - vm_compute. discriminate.
  - vm_compute. discriminate.
Defined.

(** ** [style_on_line] *)

(** X4: a line of at most [max_length - 2] characters is centred between
    two border characters: the spaces on its two sides differ by one at
    most, and the odd space is on the left for an odd [max_length] and on
    the right for an even one. *)
Theorem style_on_line_centered (line : str) (max_length : Z) (border : ascii) :
  len line <= max_length - 2 ->
  exists l r : nat,
    style_on_line line max_length border
    = [border] ++ repeat SPACE l ++ line ++ repeat SPACE r ++ [border]
    /\ Z.of_nat l + Z.of_nat r = max_length - 2 - len line
    /\ (Z.odd max_length = true -> (r <= l <= r + 1)%nat)
    /\ (Z.odd max_length = false -> (l <= r <= l + 1)%nat).
Proof.
  intros Hle. unfold style_on_line.
  destruct (center_balanced line (max_length - 2) SPACE Hle)
    as (l & r & -> & Hlr & Hodd & Heven).
  exists l, r. split.
  - rewrite center_two by (rewrite !len_app, !len_repeat; lia).
    now rewrite <- !app_assoc.
  - split; [assumption|].
    replace (Z.odd (max_length - 2)) with (Z.odd max_length) in *;
      [now split|].
    replace max_length with (Z.succ (Z.succ (max_length - 2))) at 1 by lia.
    now rewrite Z.odd_succ, Z.even_succ.
Qed.

Lemma style_on_line_centered_witness :
  exists l r : nat,
    style_on_line (lit "Paris") 70 BORDER
    = [BORDER] ++ repeat SPACE l ++ lit "Paris" ++ repeat SPACE r ++ [BORDER]
    /\ Z.of_nat l + Z.of_nat r = 70 - 2 - len (lit "Paris")
    /\ (Z.odd 70 = true -> (r <= l <= r + 1)%nat)
    /\ (Z.odd 70 = false -> (l <= r <= l + 1)%nat).
Proof.
  apply (style_on_line_centered (lit "Paris") 70 BORDER).
  vm_compute. discriminate.
Defined.

(** ** The blocks and the card *)

(** X5: for a card at least 34 columns wide, with [min_content_height] at
    least 3, whose wrapped content has at most [min_content_height - 2]
    lines, the content block has exactly [min_content_height] lines,
    whether the content is hidden or shown. *)
Theorem get_content_height_of_short_content (c : Flashcard) (w : world)
    (formatted : list str) :
  34 <= max_card_width c ->
  3 <= min_content_height c ->
  format_data (content c) (max_card_width c) = Ok formatted ->
  llen formatted + 2 <= min_content_height c ->
  exists hidden shown,
    value get_content (with_hidden c true, w) = Ok hidden
    /\ value get_content (with_hidden c false, w) = Ok shown
    /\ llen hidden = min_content_height c
    /\ llen shown = min_content_height c.
Proof.
  intros Hw Hmin Hf Hshort. unfold value. rewrite !get_content_run. cbn [fst].
  destruct (content_block_llen (with_hidden c true) formatted [PLACEHOLDER])
    as (hidden & Hh & Hhl); [exact Hf|now apply placeholder_one_line|].
  destruct (content_block_llen (with_hidden c false) formatted formatted)
    as (shown & Hs & Hsl); [exact Hf|exact Hf|].
  exists hidden, shown. repeat split; try assumption.
  - rewrite Hhl. cbn in *. lia.
  - rewrite Hsl. cbn in *. lia.
Qed.

Lemma get_content_height_of_short_content_witness :
  exists hidden shown,
    value get_content (with_hidden france true, posix_terminal) = Ok hidden
    /\ value get_content (with_hidden france false, posix_terminal) = Ok shown
    /\ llen hidden = min_content_height france
    /\ llen shown = min_content_height france.
Proof.
  apply (get_content_height_of_short_content france posix_terminal
           [lit "Paris"]).
  - vm_compute. discriminate.
  - vm_compute. discriminate.
  - vm_compute. reflexivity.
  - vm_compute. discriminate.
Defined.

(** X12: the content block is a blank framed line, the framed lines of the
    shown text, a blank framed line and then blank framed lines up to the
    height [max(min_content_height, lines of the wrapped content, lines so
    far)]. *)
Theorem get_content_shape (s : state) (lines : list str) :
  value get_content s = Ok lines ->
  exists (formatted shown : list str) (pad : nat),
    format_data (content (fst s)) (max_card_width (fst s)) = Ok formatted
    /\ format_data (shown_text (fst s)) (max_card_width (fst s)) = Ok shown
    /\ lines
       = framed (fst s) ([[]] ++ shown ++ [[]])
           ++ repeat (style_on_line [] (max_card_width (fst s)) BORDER) pad
    /\ llen lines
       = Z.max (Z.max (min_content_height (fst s)) (llen formatted))
           (llen shown + 2).
Proof.
  unfold value. rewrite get_content_run. cbn [fst].
  unfold content_block, wrapped.
  destruct (format_data (content (fst s)) _) as [formatted|] eqn:Ef;
    [|discriminate].
  destruct (format_data (shown_text (fst s)) _) as [shown|] eqn:Es;
    [|discriminate].
  cbn [and_then]. intros Heq. apply (f_equal lines_of) in Heq.
  cbn [lines_of] in Heq. subst lines.
  eexists formatted, shown, _. split; [reflexivity|]. split; [reflexivity|].
  split.
  - unfold framed, blank_lines.
    rewrite !map_app, map_repeat, <- !app_assoc. reflexivity.
  - unfold framed, llen, blank_lines.
    rewrite length_map, !length_app, repeat_length. cbn [List.length]. lia.
Qed.

Lemma get_content_shape_witness :
  exists (formatted shown : list str) (pad : nat),
    format_data (content (fst (france, posix_terminal)))
      (max_card_width (fst (france, posix_terminal))) = Ok formatted
    /\ format_data (shown_text (fst (france, posix_terminal)))
         (max_card_width (fst (france, posix_terminal))) = Ok shown
    /\ lines_of (content_block france)
       = framed (fst (france, posix_terminal)) ([[]] ++ shown ++ [[]])
           ++ repeat
                (style_on_line []
                   (max_card_width (fst (france, posix_terminal))) BORDER)
                pad
    /\ llen (lines_of (content_block france))
       = Z.max
           (Z.max (min_content_height (fst (france, posix_terminal)))
              (llen formatted))
           (llen shown + 2).
Proof.
  apply (get_content_shape (france, posix_terminal)).
  vm_compute. reflexivity.
Defined.

(** X6: in a rendering, every line after the first one, the newline line,
    is exactly [max_card_width] characters long. *)
Theorem get_lines_to_draw_rectangle (border_char : ascii) (s : state)
    (lines : list str) :
  value (get_lines_to_draw [border_char]) s = Ok lines ->
  exists rest,
    lines = [NEWLINE] :: rest
    /\ Forall (fun l => len l = max_card_width (fst s)) rest.
Proof.
  unfold value. rewrite get_lines_to_draw_run. cbn [fst].
  unfold render_with.
  destruct (topic_block (fst s)) as [t|] eqn:Et; [|discriminate].
  destruct (content_block (fst s)) as [ct|] eqn:Ec; [|discriminate].
  cbn [and_then].
  assert (Hwide : 5 < max_card_width (fst s)).
  { unfold topic_block in Et.
    destruct (wrapped (fst s) (topic (fst s))) eqn:E; [|discriminate].
    eapply wrapped_wide; eauto. }
  assert (Hb : len (border_line border_char (fst s)) = max_card_width (fst s)).
  { unfold border_line. rewrite len_repeat. lia. }
  apply topic_block_width in Et. apply content_block_width in Ec.
  destruct (truthy (keywords (fst s))).
  - destruct (keywords_block (fst s)) as [kw|] eqn:Ek; [|discriminate].
    apply keywords_block_width in Ek. cbn [and_then].
    intros Heq. apply (f_equal lines_of) in Heq. cbn [lines_of] in Heq.
    subst lines. eexists. split; [reflexivity|].
    repeat (apply Forall_app; split); auto; repeat constructor; auto.
  - intros Heq. apply (f_equal lines_of) in Heq. cbn [lines_of] in Heq.
    subst lines. eexists. split; [reflexivity|].
    repeat (apply Forall_app; split); auto; repeat constructor; auto.
Qed.

Lemma get_lines_to_draw_rectangle_witness :
  exists rest,
    lines_of (render france) = [NEWLINE] :: rest
    /\ Forall (fun l => len l = max_card_width (fst (france, posix_terminal)))
         rest.
Proof.
  apply (get_lines_to_draw_rectangle BORDER (france, posix_terminal)).
  vm_compute. reflexivity.
Defined.

(** X7: the lines of a card are computed exactly when the card is more
    than five columns wide; a narrower card raises [ValueError], whatever
    its texts and whether it has keywords or not. *)
Theorem get_lines_to_draw_needs_width (border_char : ascii) (s : state) :
  (5 < max_card_width (fst s) ->
   exists lines, get_lines_to_draw [border_char] s = (Ok lines, s))
  /\ (max_card_width (fst s) <= 5 ->
      get_lines_to_draw [border_char] s = (Raise ValueError, s)).
Proof.
  rewrite get_lines_to_draw_run. split.
  - intros Hw.
    destruct (render_with_ok truthy border_char (fst s) Hw) as [lines ->].
    + destruct (keywords (fst s)); discriminate.
    + eauto.
  - intros Hw. unfold render_with, topic_block, wrapped.
    now rewrite format_data_invalid_width.
Qed.

Lemma get_lines_to_draw_needs_width_witness :
  (exists lines,
     get_lines_to_draw [BORDER] (essay, posix_terminal)
     = (Ok lines, (essay, posix_terminal)))
  /\ get_lines_to_draw [BORDER]
       (__init__ (lit "a") (lit "b") None 5 6, posix_terminal)
     = (Raise ValueError,
        (__init__ (lit "a") (lit "b") None 5 6, posix_terminal)).
Proof.
  split.
  - apply (proj1 (get_lines_to_draw_needs_width BORDER
                    (essay, posix_terminal))).
    vm_compute. reflexivity.
  - apply (proj2 (get_lines_to_draw_needs_width BORDER
                    (__init__ (lit "a") (lit "b") None 5 6, posix_terminal))).
    vm_compute. discriminate.
Defined.

(** X8: on a card more than five columns wide, [draw] prints the lines
    of the card, in order and nothing else, and flips [hide_content]; on a
    narrower card it raises [ValueError], prints nothing and leaves the
    card as it was. *)
Theorem draw_outcome (fc : Flashcard) (w : world) :
  (5 < max_card_width fc ->
   exists lines,
     value (get_lines_to_draw [BORDER]) (fc, w) = Ok lines
     /\ draw (fc, w)
        = (Ok tt,
           (with_hidden fc (negb (hide_content fc)),
            {| os_name := os_name w;
               trace := trace w ++ map Print lines |})))
  /\ (max_card_width fc <= 5 -> draw (fc, w) = (Raise ValueError, (fc, w))).
Proof.
  rewrite draw_run. unfold value. rewrite get_lines_to_draw_run. cbn [fst].
  fold (render fc). split.
  - intros Hw. destruct (render_ok fc Hw) as [lines ->]. eauto.
  - intros Hw. now rewrite render_narrow.
Qed.

Lemma draw_outcome_witness :
  (exists lines,
     value (get_lines_to_draw [BORDER]) (france, posix_terminal) = Ok lines
     /\ draw (france, posix_terminal)
        = (Ok tt,
           (with_hidden france (negb (hide_content france)),
            {| os_name := os_name posix_terminal;
               trace := trace posix_terminal ++ map Print lines |})))
  /\ draw (__init__ (lit "a") (lit "b") None 5 6, posix_terminal)
     = (Raise ValueError,
        (__init__ (lit "a") (lit "b") None 5 6, posix_terminal)).
Proof.
  split.
  - apply (proj1 (draw_outcome france posix_terminal)).
    vm_compute. reflexivity.
  - apply (proj2 (draw_outcome (__init__ (lit "a") (lit "b") None 5 6)
                    posix_terminal)).
    vm_compute. discriminate.
Defined.

(** X9: two draws in a row leave the card as it was before the first,
    whatever the card. *)
Theorem draw_twice_restores_card (s : state) :
  fst (state_after (bind draw (fun _ => draw)) s) = fst s.
Proof.
  destruct s as [fc w]. unfold state_after, bind. rewrite draw_run.
  destruct (Z.le_gt_cases (max_card_width fc) 5) as [Hn|Hw].
  - now rewrite render_narrow.
  - destruct (render_ok fc Hw) as [lines ->]. rewrite draw_run.
    destruct (render_ok (with_hidden fc (negb (hide_content fc))) Hw)
      as [lines' ->].
    cbn [fst snd hide_content with_hidden]. rewrite negb_involutive.
    now destruct fc.
Qed.

(** ** [run_flashcards] *)

Section Session.
Variable randbelow : nat -> nat.

(** X10: without [ordered], the cards are shown in an order that is a
    permutation of the list: each card of the list is shown, in its two
    phases, as often as it is in the list, and the list is left in that
    order. *)
Theorem run_flashcards_shuffled (cards : list Flashcard) (w : world) :
  Forall (fun fc => 5 < max_card_width fc /\ hide_content fc = true) cards ->
  exists order,
    Permutation order cards
    /\ run_flashcards randbelow cards false w
       = (Ok tt, order,
          {| os_name := os_name w;
             trace := trace w ++ session (os_name w) order |}).
Proof.
  intros Hready. exists (shuffle randbelow cards).
  split; [apply shuffle_Permutation|].
  unfold run_flashcards. cbn [negb].
  apply (for_cards_run _ [] w). now apply shuffle_Forall.
Qed.

(** X11: in file order, the session shows the cards before the first
    card of five columns or less, clears the terminal for that card and
    ends with [ValueError]: that card is not drawn, no line is read for
    it, and no later card is shown. *)
Theorem run_flashcards_stops_at_narrow_card (good : list Flashcard)
    (bad : Flashcard) (rest : list Flashcard) (w : world) :
  Forall (fun fc => 5 < max_card_width fc /\ hide_content fc = true) good ->
  max_card_width bad <= 5 ->
  run_flashcards randbelow (good ++ bad :: rest) true w
  = (Raise ValueError, good ++ bad :: rest,
     {| os_name := os_name w;
        trace := trace w ++ session (os_name w) good
                   ++ [clear_screen (os_name w)] |}).
Proof.
  intros Hgood Hbad. unfold run_flashcards. cbn [negb].
  now rewrite (for_cards_stops good bad rest [] w).
Qed.

End Session.

Lemma run_flashcards_shuffled_witness :
  exists order,
    Permutation order [france; essay]
    /\ run_flashcards (fun n => n - 1)%nat [france; essay] false posix_terminal
       = (Ok tt, order,
          {| os_name := os_name posix_terminal;
             trace := trace posix_terminal
                        ++ session (os_name posix_terminal) order |}).
Proof.
  apply (run_flashcards_shuffled (fun n => n - 1)%nat [france; essay]
           posix_terminal).
  repeat constructor.
Defined.

Lemma run_flashcards_stops_at_narrow_card_witness :
  run_flashcards (fun _ => O)
    ([france] ++ __init__ (lit "a") (lit "b") None 5 6 :: [essay]) true
    posix_terminal
  = (Raise ValueError,
     [france] ++ __init__ (lit "a") (lit "b") None 5 6 :: [essay],
     {| os_name := os_name posix_terminal;
        trace := trace posix_terminal
                   ++ session (os_name posix_terminal) [france]
                   ++ [clear_screen (os_name posix_terminal)] |}).
Proof.
  apply (run_flashcards_stops_at_narrow_card (fun _ => O) [france]
           (__init__ (lit "a") (lit "b") None 5 6) [essay] posix_terminal).
  - repeat constructor.
  - vm_compute. discriminate.
Defined.

End Extras.
